(** * SR-VNC: the split control/data-plane streaming protocol

    A shallow embedding of [src/sr_vnc/server.py] and [src/sr_vnc/client.py]:
    the length-prefixed datagram framing, the server's control handler and
    send loop, and the client's receive loop, with the properties the
    design document states about them.

    Conventions.
    - Python [bytes] is [list byte]; Python [int] is [Z]; Python [str] is
      [string], held as its UTF-8 bytes (equality and emptiness agree).
    - A Python call that may raise returns a [result]; code that also
      mutates [self] or performs I/O runs in the monad [M], which threads
      the state and keeps every effect made before an exception.
    - I/O and logging are recorded, in order, in a trace of [effect]s.
    - What the libraries and the operating system answer (the screen and
      the codec, the socket, the arrival of control messages) is an
      input of the model: each call is given the outcome it meets. *)

From Stdlib Require Import ZArith Lia List String.
From Stdlib Require Import Strings.Byte.
From Stdlib Require Import Floats.SpecFloat.
From Stdlib Require Import DecimalString.
From stdpp Require Import base option list strings gmap.

Local Open Scope Z_scope.

(** ** Exceptions and fallible results *)

(** The exceptions the two programs can raise, by Python class. *)
Inductive exn : Type :=
  | StructError                      (* struct.error *)
  | JSONDecodeError                  (* json.JSONDecodeError *)
  | KeyError (key : string)
  | TypeError
  | AttributeError
  | ValueError
  | OverflowError
  | RuntimeError (msg : string)
  | OSError                          (* OSError, socket.gaierror included *)
  | BlockingIOError                  (* also InterruptedError *)
  | ScreenShotError                  (* raised inside mss / numpy / cv2 *)
  | CvError.                         (* cv2.error *)

Inductive result (A : Type) : Type :=
  | Ok (a : A)
  | Raise (e : exn).
Arguments Ok {A} a.
Arguments Raise {A} e.

Global Instance result_ret : MRet result := @Ok.
Global Instance result_bind : MBind result := fun A B k r =>
  match r with
  | Ok a => k a
  | Raise e => Raise e
  end.

Definition raises {A} (r : result A) : Prop := exists e, r = Raise e.

(** ** Bytes and [struct] *)

Module Struct.

Definition Z_of_byte (b : byte) : Z := Z.of_N (Byte.to_N b).

(** The byte holding the low eight bits of [z]. *)
Definition byte_of_Z (z : Z) : byte :=
  default x00 (Byte.of_N (Z.to_N (z mod 256))).

Definition uint32_max : Z := 4294967295.

(** [struct.pack("!I", n)]: four bytes, most significant first;
    [struct.error] when [n] is not in [0, 2^32). *)
Definition pack_I (n : Z) : result (list byte) :=
  if (0 <=? n) && (n <=? uint32_max) then
    Ok [ byte_of_Z (n / 16777216); byte_of_Z (n / 65536);
         byte_of_Z (n / 256); byte_of_Z n ]
  else Raise StructError.

(** [struct.unpack("!I", buf)[0]]: [struct.error] unless [buf] has
    exactly four bytes. *)
Definition unpack_I (buf : list byte) : result Z :=
  match buf with
  | [b3; b2; b1; b0] =>
      Ok (Z_of_byte b3 * 16777216 + Z_of_byte b2 * 65536
          + Z_of_byte b1 * 256 + Z_of_byte b0)
  | _ => Raise StructError
  end.

End Struct.

(** ** The datagram framer *)

(** [client.py]: [@dataclass class FramePacket]. *)
Module FramePacket.

Record t : Type := mk {
  size : Z;
  payload : list byte;
}.

(** [FramePacket.parse(raw)]:
    [size = struct.unpack("!I", raw[:4])[0]; payload = raw[4:4 + size]]. *)
Definition parse (raw : list byte) : result t :=
  size ← Struct.unpack_I (take 4 raw);
  Ok (mk size (take (Z.to_nat size) (drop 4 raw))).

End FramePacket.

(** The framing step of [SRVNCServer.send_frame]:
    [header = struct.pack("!I", len(frame))], then [header + frame]. *)
Definition frame_datagram (frame : list byte) : result (list byte) :=
  header ← Struct.pack_I (Z.of_nat (length frame));
  Ok (header ++ frame).

(** The ceiling the design document names as an example for the
    transport (an IPv4 UDP payload); the source has no such constant. *)
Definition udp_max_payload : Z := 65507.

(** ** Effectful code: state, trace and exceptions *)

(** A computation over a state [St] that may raise. The state returned
    with [Raise] is the state at the point of the exception. *)
Definition M (St A : Type) : Type := St -> result A * St.

Global Instance M_ret {St} : MRet (M St) := fun A a s => (Ok a, s).
Global Instance M_bind {St} : MBind (M St) := fun A B k m s =>
  match m s with
  | (Ok a, s') => k a s'
  | (Raise e, s') => (Raise e, s')
  end.

Definition lift {St A} (r : result A) : M St A := fun s => (r, s).
Definition get {St} : M St St := fun s => (Ok s, s).
Definition modify {St} (f : St -> St) : M St unit := fun s => (Ok tt, f s).

(** ** JSON values and the Python operations applied to them *)

(** A value as [json.loads] builds it; an object's keys are unique, its
    numbers are [int] or [float]. *)
#[warnings="-register-all"]
Inductive json : Type :=
  | JNull
  | JBool (b : bool)
  | JInt (n : Z)
  | JFloat (f : spec_float)
  | JStr (s : string)
  | JArr (l : list json)
  | JObj (d : gmap string json).

Module Py.

(** [v[key]] for a [str] key: only a dict can be indexed by one. *)
Definition getitem (v : json) (key : string) : result json :=
  match v with
  | JObj d =>
      match d !! key with
      | Some x => Ok x
      | None => Raise (KeyError key)
      end
  | _ => Raise TypeError
  end.

(** [v.get(key, dflt)]: only a dict has the method. *)
Definition dict_get (v : json) (key : string) (dflt : json) : result json :=
  match v with
  | JObj d => Ok (default dflt (d !! key))
  | _ => Raise AttributeError
  end.

(** Truth value, as [or] tests it. *)
Definition truthy (v : json) : bool :=
  match v with
  | JNull => false
  | JBool b => b
  | JInt n => negb (n =? 0)
  | JFloat (S754_zero _) => false
  | JFloat _ => true
  | JStr s => negb (String.eqb s "")
  | JArr l => negb (Nat.eqb (length l) 0)
  | JObj d => negb (Nat.eqb (size d) 0)
  end.

(** [a or b]. *)
Definition or_ (a b : json) : json := if truthy a then a else b.

(** [v == s] for a [str] literal [s]. *)
Definition eq_str (v : json) (s : string) : bool :=
  match v with
  | JStr t => String.eqb t s
  | _ => false
  end.

Section Int.
(** [int(s)] on a [str] is the interpreter's numeric-literal grammar
    (white space, sign, underscores, Unicode digits, digit limit); it is
    taken as given. [None] is [ValueError]. *)
Variable int_of_str : string -> option Z.

(** [int(v)]. A float truncates toward zero. *)
Definition int (v : json) : result Z :=
  match v with
  | JNull => Raise TypeError
  | JBool b => Ok (if b then 1 else 0)
  | JInt n => Ok n
  | JFloat S754_nan => Raise ValueError
  | JFloat (S754_infinity _) => Raise OverflowError
  | JFloat (S754_zero _) => Ok 0
  | JFloat (S754_finite s m e) =>
      let mag := Z.shiftl (Z.pos m) e in
      Ok (if s then - mag else mag)
  | JStr s =>
      match int_of_str s with
      | Some n => Ok n
      | None => Raise ValueError
      end
  | JArr _ | JObj _ => Raise TypeError
  end.
End Int.

(** Plain signed decimal numerals, a fragment of what [int(str)]
    accepts; it instantiates [int_of_str] in the closed examples. *)
Definition decimal_int_of_str (s : string) : option Z :=
  Z.of_int <$> NilZero.int_of_string s.

End Py.

(** ** The server *)

(** An incoming websocket message, given by what [json.loads] makes of
    it: [Raise e] for a text [json.loads] refuses, [Ok v] for one that
    decodes to [v]. *)
Definition message : Type := result json.

(** [server.py]: [@dataclass class ControlMessage]. The annotations
    [str] and [dict] are not enforced: both fields hold whatever the
    wire message held. *)
Module ControlMessage.

Record t : Type := mk {
  type : json;
  payload : json;
}.

(** [ControlMessage.from_json(message)]:
    [data = json.loads(message)], then
    [ControlMessage(type=data["type"], payload=data.get("payload", {}))]. *)
Definition from_json (msg : message) : result t :=
  data ← msg;
  ty ← Py.getitem data "type";
  pl ← Py.dict_get data "payload" (JObj ∅);
  Ok (mk ty pl).

End ControlMessage.

(** A network address [(host, port)]. The host of a registered endpoint
    is whatever value the register message carried. *)
Definition address : Type := json * Z.

(** The datagram transport that [create_datagram_endpoint] returns, as
    far as [send_frame] can tell: the local address of its socket,
    whether asyncio has closed it (after a fatal error the transport
    drops its socket and its event loop), and the datagrams it holds
    back until the socket is writable. *)
Record DatagramTransport : Type := mkDatagramTransport {
  sockname : string * Z;
  closed : bool;
  buffer : list (list byte * address);
}.

(** The fields of [SRVNCServer] the protocol reads or writes. *)
Record SRVNCServer : Type := mkSRVNCServer {
  video_host : string;
  video_port : Z;
  monitor : Z;
  _transport : option DatagramTransport;
  _client_addr : option address;
}.

(** [SRVNCServer.__init__] with its default arguments. *)
Definition SRVNCServer_init : SRVNCServer :=
  mkSRVNCServer "0.0.0.0" 9999 0 None None.

(** What the server does to the outside, in order. [Sendto] is a
    datagram handed to the socket. *)
Inductive effect : Type :=
  | Listening                               (* websockets.serve returned *)
  | LogReady
  | LogConnected (remote_address : string * Z)
  | LogRegistered (addr : address)
  | LogControl (control : ControlMessage.t)   (* apply_control's record *)
  | Grab (monitor : Z)                      (* capture_frame entered *)
  | Sendto (data : list byte) (addr : address).

Record world : Type := mkWorld {
  self : SRVNCServer;
  trace : list effect;
}.

Definition emit (e : effect) : M world unit :=
  modify (fun w => mkWorld (self w) (trace w ++ [e])).

Definition with_client_addr (s : SRVNCServer) (a : address) : SRVNCServer :=
  mkSRVNCServer (video_host s) (video_port s) (monitor s) (_transport s) (Some a).

Definition with_transport (s : SRVNCServer) (t : DatagramTransport)
  : SRVNCServer :=
  mkSRVNCServer (video_host s) (video_port s) (monitor s) (Some t) (_client_addr s).

(** [self._client_addr = a]. *)
Definition set_client_addr (a : address) : M world unit :=
  modify (fun w => mkWorld (with_client_addr (self w) a) (trace w)).

(** [self._transport = t], and any later change of the object that
    [self._transport] refers to. *)
Definition set_transport (t : DatagramTransport) : M world unit :=
  modify (fun w => mkWorld (with_transport (self w) t) (trace w)).

(** What the screen and the codec give at one call of [capture_frame]:
    either a call into mss, numpy or cv2 raises, or [cv2.imencode]
    returns [(success, encoded)]. *)
Inductive grab_outcome : Type :=
  | GrabRaises (e : exn)
  | Encoded (success : bool) (encoded : list byte).

(** ** The socket under the transport *)

Module Socket.

(** What the operating system makes of one [sock.sendto(data, (host, port))]
    whose host is a [str], the port apart: the first of these that
    applies. *)
Inductive outcome : Type :=
  | HostRefused        (* the host has a null character or no IDNA encoding *)
  | HostUnresolved     (* name resolution fails: socket.gaierror *)
  | SendFails          (* the system call fails with an OSError: network
                          unreachable, datagram too long for the protocol *)
  | WouldBlock         (* the socket is not writable *)
  | Sent.              (* the system call takes the datagram *)

(** The range of a C [int], into which the port is converted first. *)
Definition c_int_min : Z := -2147483648.
Definition c_int_max : Z := 2147483647.

Definition fits_c_int (n : Z) : bool := (c_int_min <=? n) && (n <=? c_int_max).
Definition is_port (n : Z) : bool := (0 <=? n) && (n <=? 65535).

(** [sock.sendto(data, addr)] on the non-blocking socket of the
    transport, for [bytes] data. The address is converted in this
    order: the host must be a [str] that encodes, the port must fit a C
    [int], the host must resolve, the port must be in [0, 65535]; then
    comes the system call. *)
Definition sendto (addr : address) (o : outcome) : result unit :=
  match fst addr with
  | JStr _ =>
      match o with
      | HostRefused => Raise TypeError
      | _ =>
          if negb (fits_c_int (snd addr)) then Raise OverflowError
          else
            match o with
            | HostUnresolved => Raise OSError
            | _ =>
                if negb (is_port (snd addr)) then Raise OverflowError
                else
                  match o with
                  | SendFails => Raise OSError
                  | WouldBlock => Raise BlockingIOError
                  | _ => Ok tt
                  end
            end
      end
  | _ => Raise TypeError
  end.

End Socket.

(** [self._transport.sendto(data, addr)] of asyncio's selector datagram
    transport [t] (the transport of the default event loop on Unix),
    where [o] is what the socket does if it is tried. While earlier
    datagrams are held back the new one joins them and the socket is not
    tried. Otherwise the socket is tried. A closed transport has neither
    socket nor loop, and the call raises [AttributeError]. When the
    socket would block the datagram is held back; an [OSError] goes to
    [protocol.error_received], which for the plain [DatagramProtocol] of
    [start] does nothing; any other exception is fatal for the
    transport: it is reported to the event loop and the transport is
    closed, which is over before the task that called [sendto] runs
    again. None of the last three raises. *)
Definition DatagramTransport_sendto (t : DatagramTransport)
  (data : list byte) (addr : address) (o : Socket.outcome) : M world unit :=
  match buffer t with
  | _ :: _ =>
      set_transport (mkDatagramTransport (sockname t) (closed t)
                       (buffer t ++ [(data, addr)]))
  | [] =>
      if closed t then lift (Raise AttributeError)
      else
        match Socket.sendto addr o with
        | Ok _ => emit (Sendto data addr)
        | Raise BlockingIOError =>
            set_transport (mkDatagramTransport (sockname t) false [(data, addr)])
        | Raise OSError => mret tt
        | Raise _ => set_transport (mkDatagramTransport (sockname t) true [])
        end
  end.

(** The transport's writer callback [_sendto_ready], which the event
    loop runs when the socket is writable again: the datagrams held back
    are tried in order, with the outcomes [os] (beyond which the socket
    would block). It gives the transport as it is left and the
    datagrams handed to the socket. *)
Fixpoint sendto_ready (name : string * Z) (buf : list (list byte * address))
  (os : list Socket.outcome) : DatagramTransport * list effect :=
  match buf, os with
  | [], _ => (mkDatagramTransport name false [], [])
  | _ :: _, [] => (mkDatagramTransport name false buf, [])
  | (data, addr) :: rest, o :: os' =>
      match Socket.sendto addr o with
      | Ok _ =>
          let '(t, sent) := sendto_ready name rest os' in
          (t, Sendto data addr :: sent)
      | Raise BlockingIOError => (mkDatagramTransport name false buf, [])
      | Raise OSError => (mkDatagramTransport name false rest, [])
      | Raise _ => (mkDatagramTransport name true [], [])
      end
  end.

(** ** The tasks of the server *)

(** The server runs as one event loop: the main task, which is [start],
    and one task per control connection, which is [handle_control].
    A task runs until it awaits. [send_frame] and the body of the
    [async for] of [handle_control] contain no suspension point
    ([apply_control] awaits nothing), so a tick and the handling of one
    message are indivisible, and everything else happens while the main
    task is suspended. *)

(** What the event loop does while the main task is suspended. *)
Inductive loop_event : Type :=
  | Connect (remote_address : string * Z)
      (* a viewer has connected: [handle_control] is called for it *)
  | Deliver (conn : nat) (msg : message)
      (* the connection numbered [conn], in order of connecting, yields [msg] *)
  | Disconnect (conn : nat)
      (* that connection is closed: its [async for] ends *)
  | Writable (os : list Socket.outcome).
      (* the datagram socket is writable: the transport's writer runs *)

(** The server object and its trace, with the handler tasks: for each
    connection, in order of connecting, the peer address while its
    handler waits for a message, [None] once the handler has ended. *)
Record system : Type := mkSystem {
  sys_world : world;
  sys_handlers : list (option (string * Z));
}.

(** A computation on the server object, run inside the system. *)
Definition in_world {A} (m : M world A) : M system A :=
  fun s =>
    let '(r, w) := m (sys_world s) in (r, mkSystem w (sys_handlers s)).

(** What one tick of the send loop meets: the screen, the socket, and
    what the event loop does during the [asyncio.sleep] that follows. *)
Record tick : Type := mkTick {
  screen : grab_outcome;
  socket : Socket.outcome;
  asleep : list loop_event;
}.

Section Server.
Variable int_of_str : string -> option Z.

(** [SRVNCServer.apply_control]: the placeholder only logs. *)
Definition apply_control (control : ControlMessage.t) : M world unit :=
  emit (LogControl control).

(** The body of the [async for] in [SRVNCServer.handle_control]. *)
Definition handle_message (remote_address : string * Z) (msg : message)
  : M world unit :=
  control ← lift (ControlMessage.from_json msg);
  if Py.eq_str (ControlMessage.type control) "register" then
    host_given ← lift (Py.dict_get (ControlMessage.payload control) "host" JNull);
    let host := Py.or_ host_given (JStr (fst remote_address)) in
    port_given ← lift (Py.getitem (ControlMessage.payload control) "port");
    port ← lift (Py.int int_of_str port_given);
    set_client_addr (host, port);;
    emit (LogRegistered (host, port))
  else
    apply_control control.

Fixpoint handle_messages (remote_address : string * Z) (msgs : list message)
  : M world unit :=
  match msgs with
  | [] => mret tt
  | msg :: rest =>
      handle_message remote_address msg;;
      handle_messages remote_address rest
  end.

(** [SRVNCServer.handle_control] on a connection that delivers [msgs].
    [Raise] is the handler ending on an exception, which ends the
    serving of that connection. *)
Definition handle_control (remote_address : string * Z) (msgs : list message)
  : M world unit :=
  emit (LogConnected remote_address);;
  handle_messages remote_address msgs.

(** [SRVNCServer.capture_frame]. *)
Definition capture_frame (o : grab_outcome) : M world (list byte) :=
  w ← get;
  emit (Grab (monitor (self w)));;
  match o with
  | GrabRaises e => lift (Raise e)
  | Encoded success encoded =>
      if negb success then lift (Raise (RuntimeError "Failed to encode frame"))
      else mret encoded
  end.

(** [SRVNCServer.send_frame]: one tick of the send loop. *)
Definition send_frame (o : grab_outcome) (so : Socket.outcome) : M world unit :=
  w ← get;
  match _client_addr (self w), _transport (self w) with
  | Some addr, Some t =>
      frame ← capture_frame o;
      data ← lift (frame_datagram frame);
      DatagramTransport_sendto t data addr so
  | _, _ => mret tt
  end.

(** One step of the event loop while the main task is suspended. An
    exception that leaves [handle_control] ends the task of that
    connection and nothing else: the websockets server logs it and
    closes the connection. *)
Definition loop_step (s : system) (ev : loop_event) : system :=
  match ev with
  | Connect remote_address =>
      mkSystem (snd (emit (LogConnected remote_address) (sys_world s)))
               (sys_handlers s ++ [Some remote_address])
  | Deliver conn msg =>
      match sys_handlers s !! conn with
      | Some (Some remote_address) =>
          match handle_message remote_address msg (sys_world s) with
          | (Ok _, w) => mkSystem w (sys_handlers s)
          | (Raise _, w) => mkSystem w (<[conn := None]> (sys_handlers s))
          end
      | _ => s
      end
  | Disconnect conn =>
      mkSystem (sys_world s) (<[conn := None]> (sys_handlers s))
  | Writable os =>
      match _transport (self (sys_world s)) with
      | Some t =>
          if closed t then s
          else
            let '(t', sent) := sendto_ready (sockname t) (buffer t) os in
            mkSystem (mkWorld (with_transport (self (sys_world s)) t')
                              (trace (sys_world s) ++ sent))
                     (sys_handlers s)
      | None => s
      end
  end.

Definition run_events (evs : list loop_event) (s : system) : system :=
  fold_left loop_step evs s.

(** The main task is suspended while the event loop does [evs]. *)
Definition suspended (evs : list loop_event) : M system unit :=
  modify (run_events evs).

(** The [while True] of [SRVNCServer.start], run for [ticks]: each is
    [await self.send_frame()], then [await asyncio.sleep(...)]. [Raise]
    leaves [start], hence [main] and [asyncio.run]: the process ends. *)
Fixpoint send_loop (ticks : list tick) : M system unit :=
  match ticks with
  | [] => mret tt
  | tk :: rest =>
      in_world (send_frame (screen tk) (socket tk));;
      suspended (asleep tk);;
      send_loop rest
  end.

(** [SRVNCServer.start], given what [websockets.serve] and
    [create_datagram_endpoint] return and what the event loop does while
    the latter is awaited. From the moment [websockets.serve] has
    returned the control listener is open, so handlers may run before
    the datagram endpoint is bound. *)
Definition start (served : result unit) (binding : list loop_event)
  (bound : result (string * Z)) (ticks : list tick) : M system unit :=
  lift served;;
  in_world (emit Listening);;
  suspended binding;;
  name ← lift bound;
  in_world (set_transport (mkDatagramTransport name false []));;
  in_world (emit LogReady);;
  send_loop ticks.

(** [main]: [start] on a server built with the default arguments. *)
Definition main (served : result unit) (binding : list loop_event)
  (bound : result (string * Z)) (ticks : list tick) : result unit * system :=
  start served binding bound ticks (mkSystem (mkWorld SRVNCServer_init []) []).

End Server.

(** [self._udp_socket.recvfrom(bufsize)] on a datagram that arrives: the
    bytes beyond [bufsize] are discarded. *)
Definition recvfrom (bufsize : Z) (datagram : list byte) : list byte :=
  take (Z.to_nat bufsize) datagram.

(** ** The client *)

Section Client.
(** The decoder is OpenCV's: [cv2.imdecode] either raises, returns
    [None], or returns an image. *)
Variable image : Type.

Inductive imdecode_result : Type :=
  | DecodeRaises (e : exn)
  | DecodeNone
  | Decoded (img : image).

Variable imdecode : list byte -> imdecode_result.

(** What the client shows. *)
Inductive shown : Type :=
  | Imshow (img : image)
  | WaitKey (delay : Z).

(** [SRVNCClient.display_frame]. *)
Definition display_frame (frame : list byte) : M (list shown) unit :=
  match imdecode frame with
  | DecodeRaises e => lift (Raise e)
  | DecodeNone => mret tt
  | Decoded img =>
      modify (fun tr => tr ++ [Imshow img]);;
      modify (fun tr => tr ++ [WaitKey 1])
  end.

(** [SRVNCClient.receive_frames], run on the byte strings that the
    successive [recvfrom] calls return. [Raise] ends the task. *)
Fixpoint receive_frames (datagrams : list (list byte)) : M (list shown) unit :=
  match datagrams with
  | [] => mret tt
  | data :: rest =>
      packet ← lift (FramePacket.parse data);
      display_frame (FramePacket.payload packet);;
      receive_frames rest
  end.

(** The frames put on screen. *)
Definition displayed (tr : list shown) : list image :=
  omap (fun e => match e with Imshow img => Some img | WaitKey _ => None end) tr.

End Client.

(** A stand-in for the decoder in the closed examples: a payload that
    starts with the JPEG start-of-image marker decodes (to itself), an
    empty one is refused with an exception, any other yields [None]. *)
Definition marker_decoder (frame : list byte) : imdecode_result (list byte) :=
  match frame with
  | [] => DecodeRaises _ CvError
  | xff :: xd8 :: _ => Decoded _ frame
  | _ => DecodeNone _
  end.

(** ** The statements of the design document, as predicates *)

(** A register message for the endpoint [(h, p)], in the wire format
    [{"type": "register", "payload": {"host": string|null, "port": integer}}]:
    the host is given, or is null or absent and [h] is the peer address
    of the connection. *)
Definition register_for (remote_address : string * Z) (h : string) (p : Z)
  (msg : message) : Prop :=
  exists d pl,
    msg = Ok (JObj d)
    /\ d !! "type" = Some (JStr "register")
    /\ d !! "payload" = Some (JObj pl)
    /\ pl !! "port" = Some (JInt p)
    /\ ((pl !! "host" = Some (JStr h) /\ h <> "")
        \/ ((pl !! "host" = None \/ pl !! "host" = Some JNull)
            /\ fst remote_address = h)).

(** A command message carrying [pl]: [{"type": "command", "payload": pl}]. *)
Definition command_for (pl : json) (msg : message) : Prop :=
  exists d,
    msg = Ok (JObj d)
    /\ d !! "type" = Some (JStr "command")
    /\ d !! "payload" = Some pl.

(** A register message whose payload (the empty dict when the message
    has none) has no usable port. *)
Definition register_without_port (int_of_str : string -> option Z)
  (msg : message) : Prop :=
  exists d pl,
    msg = Ok (JObj d)
    /\ d !! "type" = Some (JStr "register")
    /\ default (JObj ∅) (d !! "payload") = JObj pl
    /\ (pl !! "port" = None
        \/ exists v, pl !! "port" = Some v /\ raises (Py.int int_of_str v)).

(** A control message that is unparseable or has an unknown type. *)
Definition malformed (msg : message) : Prop :=
  match ControlMessage.from_json msg with
  | Raise _ => True
  | Ok c =>
      ControlMessage.type c <> JStr "register"
      /\ ControlMessage.type c <> JStr "command"
  end.

(** The handler logs and ignores [msg] and goes on with [rest]: the
    server object is untouched, nothing new reaches [apply_control],
    and the rest of the connection is served. *)
Definition logged_and_ignored (int_of_str : string -> option Z)
  (remote_address : string * Z) (msg : message) (rest : list message)
  (w : world) : Prop :=
  exists w1,
    handle_message int_of_str remote_address msg w = (Ok tt, w1)
    /\ self w1 = self w
    /\ (forall c, LogControl c ∈ trace w1 -> LogControl c ∈ trace w)
    /\ handle_messages int_of_str remote_address (msg :: rest) w
       = handle_messages int_of_str remote_address rest w1.

(** [FramePacket.parse] refuses a buffer shorter than its header
    announces. *)
Definition truncation_rejected (buf : list byte) : Prop :=
  forall n, Struct.unpack_I (take 4 buf) = Ok n ->
            Z.of_nat (length buf) < 4 + n -> raises (FramePacket.parse buf).

(** Framing refuses a payload above the ceiling. *)
Definition oversized_rejected (max_payload : Z) (p : list byte) : Prop :=
  max_payload < Z.of_nat (length p) -> raises (frame_datagram p).

(** A datagram is well formed when it is the framing of a payload the
    decoder accepts. *)
Definition well_formed {image} (imdecode : list byte -> imdecode_result image)
  (data : list byte) : Prop :=
  exists p img, frame_datagram p = Ok data /\ imdecode p = Decoded _ img.

(** A datagram with its header whose payload slice the decoder answers
    [None] for. *)
Definition undecodable {image} (imdecode : list byte -> imdecode_result image)
  (data : list byte) : Prop :=
  exists pk, FramePacket.parse data = Ok pk
             /\ imdecode (FramePacket.payload pk) = DecodeNone _.

(** The receive loop, fed a malformed then a well-formed datagram, shows
    exactly one frame and is still running. *)
Definition survives_malformed {image}
  (imdecode : list byte -> imdecode_result image) (bad good : list byte) : Prop :=
  ~ well_formed imdecode bad -> well_formed imdecode good ->
  exists tr, receive_frames _ imdecode [bad; good] [] = (Ok tt, tr)
             /\ length (displayed _ tr) = 1%nat.

(** A capture or encode failure. *)
Definition capture_fails (o : grab_outcome) : Prop :=
  match o with
  | GrabRaises _ => True
  | Encoded success _ => success = false
  end.

(** The failure of tick [tk] stays in that tick: the loop goes on with
    the ticks [rest], on the same server object. *)
Definition failure_is_tick_local (int_of_str : string -> option Z)
  (tk : tick) (rest : list tick) (s : system) : Prop :=
  capture_fails (screen tk) ->
  exists s1,
    self (sys_world s1) = self (sys_world s)
    /\ send_loop int_of_str (tk :: rest) s = send_loop int_of_str rest s1.

(** ** Sample inputs for the closed examples *)

Module Sample.

Definition peer : string * Z := ("192.0.2.7", 51000).
Definition other_peer : string * Z := ("192.0.2.9", 51001).

(** A fresh server, and one that is bound and streaming to a viewer. *)
Definition fresh : world := mkWorld SRVNCServer_init [].

Definition bound_transport : DatagramTransport :=
  mkDatagramTransport ("0.0.0.0", 9999) false [].

Definition streaming : world :=
  mkWorld (mkSRVNCServer "0.0.0.0" 9999 0 (Some bound_transport)
                         (Some (JStr "127.0.0.1", 10000)))
          [].

(** The same with one viewer connected, and a tick without events. *)
Definition streaming_system : system := mkSystem streaming [Some peer].

Definition quiet_tick (o : grab_outcome) : tick := mkTick o Socket.Sent [].

(** A server whose registered endpoint has a port that no socket takes. *)
Definition unroutable : world :=
  mkWorld (mkSRVNCServer "0.0.0.0" 9999 0 (Some bound_transport)
                         (Some (JStr "127.0.0.1", 70000)))
          [].

(** What the client of [client.py] sends first: host null, its port. *)
Definition register_inferred : message :=
  Ok (JObj {[ "type" := JStr "register";
              "payload" := JObj {[ "host" := JNull; "port" := JInt 10000 ]} ]}).

Definition register_explicit : message :=
  Ok (JObj {[ "type" := JStr "register";
              "payload" := JObj {[ "host" := JStr "198.51.100.4";
                                   "port" := JInt 10001 ]} ]}).

Definition register_portless : message :=
  Ok (JObj {[ "type" := JStr "register";
              "payload" := JObj {[ "host" := JStr "198.51.100.4" ]} ]}).

Definition click_payload : json := JObj {[ "raw" := JStr "click:100,200" ]}.

Definition click : message :=
  Ok (JObj {[ "type" := JStr "command"; "payload" := click_payload ]}).

Definition unparseable : message := Raise JSONDecodeError.

Definition unknown_type : message :=
  Ok (JObj {[ "type" := JStr "resize"; "payload" := JObj ∅ ]}).

(** A payload the stand-in decoder accepts, its datagram, and two
    datagrams it does not: one without a full header, one whose payload
    is not an image. *)
Definition jpeg : list byte := [xff; xd8; xff; xd9].
Definition jpeg_datagram : list byte := [x00; x00; x00; x04] ++ jpeg.
Definition short_datagram : list byte := [x01].
Definition noise_datagram : list byte := [x00; x00; x00; x02; x13; x37].

End Sample.

(** ** Observations on traces *)

(** The effects that touch the screen or the network. *)
Definition is_io (e : effect) : bool :=
  match e with
  | Listening | Grab _ | Sendto _ _ => true
  | _ => false
  end.

(** The datagrams handed to the socket, with their destinations, oldest
    first. *)
Definition sends (tr : list effect) : list (list byte * address) :=
  omap (fun e => match e with Sendto d a => Some (d, a) | _ => None end) tr.

(** The endpoint in force after the trace [tr], [init] being the one in
    force before: that of the last registration logged, if any. *)
Definition last_registered (init : option address) (tr : list effect)
  : option address :=
  fold_left (fun cur e => match e with
                          | LogRegistered a => Some a
                          | _ => cur
                          end) tr init.

(** The datagrams that the transport of the server holds back. *)
Definition holds_back (s : SRVNCServer) : list (list byte * address) :=
  match _transport s with
  | Some t => buffer t
  | None => []
  end.

(** Every datagram in [tr] is addressed to the endpoint in force when it
    is sent, [cur] being the one in force before [tr]. *)
Fixpoint follows (cur : option address) (tr : list effect) : Prop :=
  match tr with
  | [] => True
  | LogRegistered a :: tr' => follows (Some a) tr'
  | Sendto _ a :: tr' => cur = Some a /\ follows cur tr'
  | _ :: tr' => follows cur tr'
  end.

(** A message that takes the registration branch of the handler. *)
Definition is_register (msg : message) : bool :=
  match ControlMessage.from_json msg with
  | Ok c => Py.eq_str (ControlMessage.type c) "register"
  | Raise _ => false
  end.

(** An event of the loop that can change the registered endpoint. *)
Definition registers (ev : loop_event) : bool :=
  match ev with
  | Deliver _ msg => is_register msg
  | _ => false
  end.

(** An exception that the transport treats as fatal: anything but an
    [OSError]. *)
Definition fatal (e : exn) : bool :=
  match e with
  | OSError | BlockingIOError => false
  | _ => true
  end.

(** ** The client's control side *)

(** The fields of [SRVNCClient] set by [__init__]. *)
Record SRVNCClient : Type := mkSRVNCClient {
  server_host : string;
  control_port : Z;
  listen_port : Z;
}.

(** What the client does on the control channel, in order.
    [WsSend v] is [websocket.send(json.dumps(v))]. *)
Inductive control_effect : Type :=
  | WsConnect (host : string) (port : Z)
  | WsSend (v : json)
  | LogRegisteredUdp.

(** The dict [register_udp] serialises. *)
Definition register_payload (c : SRVNCClient) : json :=
  JObj {[ "type" := JStr "register";
          "payload" := JObj {[ "host" := JNull;
                               "port" := JInt (listen_port c) ]} ]}.

(** The dict [forward_controls] serialises for one line of input. *)
Definition command_payload (command : string) : json :=
  JObj {[ "type" := JStr "command";
          "payload" := JObj {[ "raw" := JStr command ]} ]}.

(** [SRVNCClient.forward_controls], run for the lines that the
    successive [input] calls return. *)
Fixpoint forward_controls (commands : list string)
  : M (list control_effect) unit :=
  match commands with
  | [] => mret tt
  | command :: rest =>
      modify (fun tr => tr ++ [WsSend (command_payload command)]);;
      forward_controls rest
  end.

(** [SRVNCClient.register_udp], given what [websockets.connect]
    returns. *)
Definition register_udp (c : SRVNCClient) (opened : result unit)
  (commands : list string) : M (list control_effect) unit :=
  modify (fun tr => tr ++ [WsConnect (server_host c) (control_port c)]);;
  lift opened;;
  modify (fun tr => tr ++ [WsSend (register_payload c)]);;
  modify (fun tr => tr ++ [LogRegisteredUdp]);;
  forward_controls commands.

(** The values sent, oldest first. *)
Definition sent (tr : list control_effect) : list json :=
  omap (fun e => match e with WsSend v => Some v | _ => None end) tr.

(** The message the server's handler receives for a value the client
    sent: [json.loads] gives back what [json.dumps] was given, for the
    dicts of strings, integers and [None] that the client builds. *)
Definition delivered (v : json) : message := Ok v.

(** The image, if any, that the receive loop shows for one datagram. *)
Definition shows {image} (imdecode : list byte -> imdecode_result image)
  (data : list byte) : option image :=
  match FramePacket.parse data with
  | Ok pk =>
      match imdecode (FramePacket.payload pk) with
      | Decoded _ img => Some img
      | _ => None
      end
  | Raise _ => None
  end.

(** ** Properties of the framer *)

Section FramerFacts.
Import Struct FramePacket.

Lemma Z_of_byte_of_Z z : Z_of_byte (byte_of_Z z) = z mod 256.
Proof.
  unfold Z_of_byte, byte_of_Z.
  assert (Hr : 0 <= z mod 256 < 256) by (apply Z.mod_pos_bound; lia).
  destruct (Byte.of_N (Z.to_N (z mod 256))) as [b|] eqn:E.
  - apply Byte.to_of_N in E. simpl. rewrite E. lia.
  - apply Byte.of_N_None_iff in E. lia.
Qed.

Lemma Z_of_byte_range b : 0 <= Z_of_byte b < 256.
Proof.
  unfold Z_of_byte. pose proof (Byte.to_N_bounded b). lia.
Qed.

Lemma unpack_pack n :
  0 <= n <= uint32_max -> pack_I n ≫= unpack_I = Ok n.
Proof.
  intros Hn. unfold pack_I.
  replace ((0 <=? n) && (n <=? uint32_max)) with true
    by (symmetry; apply andb_true_intro; split; lia).
  simpl. rewrite !Z_of_byte_of_Z. f_equal.
  unfold uint32_max in Hn.
  rewrite (Z.mod_small (n / 16777216)) by
    (split; [apply Z.div_pos; lia | apply Z.div_lt_upper_bound; lia]).
  pose proof (Z.div_mod n 256 ltac:(lia)).
  pose proof (Z.div_mod (n / 256) 256 ltac:(lia)).
  pose proof (Z.div_mod (n / 65536) 256 ltac:(lia)).
  replace (n / 65536) with (n / 256 / 256) in *
    by (rewrite Z.div_div; [reflexivity | lia | lia]).
  replace (n / 16777216) with (n / 256 / 256 / 256)
    by (rewrite !Z.div_div; [reflexivity | lia ..]).
  lia.
Qed.

Lemma pack_I_length n hdr : pack_I n = Ok hdr -> length hdr = 4%nat.
Proof.
  unfold pack_I. destruct (_ && _); [|discriminate].
  intros [= <-]. reflexivity.
Qed.

Lemma unpack_I_length buf n : unpack_I buf = Ok n -> length buf = 4%nat.
Proof.
  destruct buf as [|b3 [|b2 [|b1 [|b0 [|? ?]]]]]; try discriminate.
  reflexivity.
Qed.

Lemma unpack_I_range buf n : unpack_I buf = Ok n -> 0 <= n <= uint32_max.
Proof.
  destruct buf as [|b3 [|b2 [|b1 [|b0 [|? ?]]]]]; try discriminate.
  intros [= <-]. unfold uint32_max.
  pose proof (Z_of_byte_range b3). pose proof (Z_of_byte_range b2).
  pose proof (Z_of_byte_range b1). pose proof (Z_of_byte_range b0). lia.
Qed.

Lemma pack_I_ok n :
  0 <= n <= uint32_max ->
  exists hdr, pack_I n = Ok hdr /\ length hdr = 4%nat /\ unpack_I hdr = Ok n.
Proof.
  intros Hn. pose proof (unpack_pack n Hn) as Hup.
  destruct (pack_I n) as [hdr|e] eqn:E; [|discriminate].
  exists hdr. eauto using pack_I_length.
Qed.

Lemma pack_I_overflow n : uint32_max < n -> pack_I n = Raise StructError.
Proof.
  intros Hn. unfold pack_I.
  replace (n <=? uint32_max) with false by (symmetry; apply Z.leb_gt; lia).
  now rewrite andb_false_r.
Qed.

(** A buffer that starts with a four-byte header [hdr] parses to the
    declared length and the slice of the rest it delimits. *)
Lemma parse_app hdr rest n :
  length hdr = 4%nat -> unpack_I hdr = Ok n ->
  parse (hdr ++ rest) = Ok (mk n (take (Z.to_nat n) rest)).
Proof.
  intros Hlen Hun. unfold parse.
  rewrite take_app_length' by (symmetry; exact Hlen).
  rewrite drop_app_length' by (symmetry; exact Hlen).
  now rewrite Hun.
Qed.

(** [struct.unpack] refuses a header slice of fewer than four bytes. *)
Lemma parse_short raw :
  (length raw < 4)%nat -> parse raw = Raise StructError.
Proof.
  intros Hlen. unfold parse.
  destruct raw as [|b3 [|b2 [|b1 [|b0 raw]]]]; simpl in *; try reflexivity.
  lia.
Qed.

(** With four bytes or more, [parse] always returns a packet. *)
Lemma parse_long raw :
  (4 <= length raw)%nat -> exists pk, parse raw = Ok pk.
Proof.
  intros Hlen. unfold parse.
  destruct raw as [|b3 [|b2 [|b1 [|b0 raw]]]]; simpl in *; try lia.
  eauto.
Qed.

Lemma frame_datagram_ok frame :
  Z.of_nat (length frame) <= uint32_max ->
  exists hdr, length hdr = 4%nat
              /\ unpack_I hdr = Ok (Z.of_nat (length frame))
              /\ frame_datagram frame = Ok (hdr ++ frame).
Proof.
  intros Hfit.
  destruct (pack_I_ok (Z.of_nat (length frame))) as (hdr & Hpk & Hl & Hun);
    [lia|].
  exists hdr. unfold frame_datagram. rewrite Hpk. auto.
Qed.

Lemma frame_datagram_overflow frame :
  uint32_max < Z.of_nat (length frame) ->
  frame_datagram frame = Raise StructError.
Proof.
  intros H. unfold frame_datagram. now rewrite pack_I_overflow.
Qed.

Lemma frame_datagram_length frame data :
  frame_datagram frame = Ok data -> (4 <= length data)%nat.
Proof.
  unfold frame_datagram.
  destruct (pack_I _) as [hdr|e] eqn:E; [|discriminate].
  intros [= <-]. apply pack_I_length in E. rewrite length_app. lia.
Qed.

Lemma parse_frame_datagram frame data :
  frame_datagram frame = Ok data ->
  parse data = Ok (mk (Z.of_nat (length frame)) frame).
Proof.
  intros Hfr.
  destruct (Z_le_gt_dec (Z.of_nat (length frame)) uint32_max) as [Hfit|Hbig].
  - destruct (frame_datagram_ok frame Hfit) as (hdr & Hl & Hun & Heq).
    rewrite Heq in Hfr. injection Hfr as <-.
    rewrite (parse_app hdr frame _ Hl Hun).
    now rewrite Nat2Z.id, firstn_all.
  - rewrite frame_datagram_overflow in Hfr by lia. discriminate.
Qed.

(** C1. Round trip: for every payload [p] no longer than the maximum
    payload size (any ceiling that fits the four-byte length field),
    framing [p] as [send_frame] does and parsing the datagram with
    [FramePacket.parse] gives a packet whose payload is [p] and whose
    declared length is [len(p)]. *)
Theorem frame_parse_roundtrip (max_payload : Z) (p : list byte) :
  max_payload <= uint32_max ->
  Z.of_nat (length p) <= max_payload ->
  frame_datagram p ≫= parse = Ok (mk (Z.of_nat (length p)) p).
Proof.
  intros Hmax Hlen.
  destruct (frame_datagram_ok p) as (hdr & _ & _ & Heq); [lia|].
  rewrite Heq. simpl. apply parse_frame_datagram. exact Heq.
Qed.

Lemma frame_parse_roundtrip_witness :
  frame_datagram [x4a; x50; x47] ≫= parse = Ok (mk 3 [x4a; x50; x47]).
Proof.
  apply (frame_parse_roundtrip udp_max_payload [x4a; x50; x47]);
    vm_compute; discriminate.
Defined.

(** C4, as stated, fails: a six-byte buffer that declares five payload
    bytes is not refused; it parses to a two-byte payload. *)
Lemma parse_accepts_truncated :
  parse [x00; x00; x00; x05; x01; x02] = Ok (mk 5 [x01; x02])
  /\ ~ truncation_rejected [x00; x00; x00; x05; x01; x02].
Proof.
  split; [reflexivity|].
  intros H. destruct (H 5) as [e He]; [reflexivity | reflexivity |].
  discriminate He.
Qed.

(** C4, amended. For every buffer whose four-byte header declares more
    bytes than follow it, [parse] does not fail: it returns a packet
    whose [size] is the declared length and whose payload is all the
    remaining bytes, fewer than [size]. *)
Theorem parse_truncated (buf : list byte) (n : Z) :
  unpack_I (take 4 buf) = Ok n ->
  Z.of_nat (length buf) < 4 + n ->
  parse buf = Ok (mk n (drop 4 buf))
  /\ Z.of_nat (length (drop 4 buf)) < n.
Proof.
  intros Hun Hlen. unfold parse. rewrite Hun. simpl.
  apply unpack_I_length in Hun. rewrite length_take in Hun.
  rewrite length_drop. split; [|lia].
  rewrite take_ge; [reflexivity|]. rewrite length_drop. lia.
Qed.

Lemma parse_truncated_witness :
  parse [x00; x00; x00; x05; x01; x02]
    = Ok (mk 5 (drop 4 [x00; x00; x00; x05; x01; x02]))
  /\ Z.of_nat (length (drop 4 [x00; x00; x00; x05; x01; x02])) < 5.
Proof.
  apply (parse_truncated [x00; x00; x00; x05; x01; x02] 5); reflexivity.
Defined.

(** C5, as stated, fails: a payload one byte over the ceiling is
    framed like any other. *)
Lemma frame_datagram_accepts_oversized :
  ~ oversized_rejected udp_max_payload (replicate (Z.to_nat 65508) x00).
Proof.
  intros H. destruct H as [e He].
  - rewrite length_replicate, Z2Nat.id by lia. reflexivity.
  - destruct (frame_datagram_ok (replicate (Z.to_nat 65508) x00))
      as (hdr & _ & _ & Heq).
    + rewrite length_replicate, Z2Nat.id by lia. unfold uint32_max. lia.
    + rewrite Heq in He. discriminate He.
Qed.

(** C5, amended. The send path has no ceiling check: for every payload
    [p] longer than the ceiling whose length still fits the four-byte
    field, framing succeeds and yields the header that encodes [len(p)]
    followed by [p]. *)
Theorem frame_datagram_no_ceiling (max_payload : Z) (p : list byte) :
  max_payload < Z.of_nat (length p) ->
  Z.of_nat (length p) <= uint32_max ->
  exists hdr, length hdr = 4%nat
              /\ unpack_I hdr = Ok (Z.of_nat (length p))
              /\ frame_datagram p = Ok (hdr ++ p).
Proof.
  intros _ Hfit. now apply frame_datagram_ok.
Qed.

Lemma frame_datagram_no_ceiling_witness :
  exists hdr, length hdr = 4%nat
              /\ unpack_I hdr = Ok (Z.of_nat (length [x01; x02; x03]))
              /\ frame_datagram [x01; x02; x03] = Ok (hdr ++ [x01; x02; x03]).
Proof.
  apply (frame_datagram_no_ceiling 2 [x01; x02; x03]);
    vm_compute; [reflexivity | discriminate].
Defined.

End FramerFacts.

(** ** Properties of the server *)

(** Unfolds the monadic plumbing of a computation that has been applied
    to a state. *)
Ltac run :=
  unfold emit, set_client_addr, set_transport, apply_control, modify, lift, get;
  unfold mbind, M_bind, mret, M_ret; simpl.

Section ServerFacts.
Variable int_of_str : string -> option Z.

Lemma from_json_obj d ty :
  d !! "type" = Some ty ->
  ControlMessage.from_json (Ok (JObj d))
  = Ok (ControlMessage.mk ty (default (JObj ∅) (d !! "payload"))).
Proof.
  intros Hty. unfold ControlMessage.from_json. simpl. now rewrite Hty.
Qed.

(** An exception while building the [ControlMessage] leaves the handler
    with the world as it was. *)
Lemma handle_message_raise remote_address msg e w :
  ControlMessage.from_json msg = Raise e ->
  handle_message int_of_str remote_address msg w = (Raise e, w).
Proof.
  intros H. unfold handle_message. run. now rewrite H.
Qed.

(** Every type but ["register"] takes the [else] branch. *)
Lemma handle_message_other remote_address msg c w :
  ControlMessage.from_json msg = Ok c ->
  Py.eq_str (ControlMessage.type c) "register" = false ->
  handle_message int_of_str remote_address msg w
  = (Ok tt, mkWorld (self w) (trace w ++ [LogControl c])).
Proof.
  intros H Hty. unfold handle_message. run. rewrite H. simpl.
  now rewrite Hty.
Qed.

Lemma eq_str_false v s : v <> JStr s -> Py.eq_str v s = false.
Proof.
  intros Hne. destruct v; try reflexivity. simpl.
  apply String.eqb_neq. congruence.
Qed.

Lemma handle_message_register remote_address h p msg w :
  register_for remote_address h p msg ->
  handle_message int_of_str remote_address msg w
  = (Ok tt, mkWorld (with_client_addr (self w) (JStr h, p))
                    (trace w ++ [LogRegistered (JStr h, p)])).
Proof.
  intros (d & pl & -> & Hty & Hpl & Hport & Hhost).
  unfold handle_message.
  rewrite (from_json_obj d _ Hty), Hpl. run.
  rewrite Hport. simpl.
  destruct Hhost as [[Hh Hne] | [Hh <-]].
  - rewrite Hh. unfold Py.or_. simpl.
    apply String.eqb_neq in Hne. now rewrite Hne.
  - destruct Hh as [Hh | Hh]; rewrite Hh; reflexivity.
Qed.

(** A tick changes no field of the server object but, at most, the
    state of the transport; it only ever appends to the trace, and
    whatever it hands to the socket goes to the endpoint registered when
    the tick starts. *)
Lemma send_frame_target o so w r w' :
  send_frame o so w = (r, w') ->
  _client_addr (self w') = _client_addr (self w)
  /\ monitor (self w') = monitor (self w)
  /\ exists new, trace w' = trace w ++ new
                 /\ forall data a, Sendto data a ∈ new ->
                                   _client_addr (self w) = Some a.
Proof.
  unfold send_frame, capture_frame, DatagramTransport_sendto. run.
  destruct (_client_addr (self w)) as [addr|] eqn:Ha;
    [destruct (_transport (self w)) as [t|] eqn:Ht|].
  - assert (Hgrab : forall data a,
              Sendto data a ∈ [Grab (monitor (self w))] -> Some addr = Some a).
    { intros data a Hin. apply list_elem_of_singleton in Hin. discriminate. }
    destruct o as [e | [|] encoded]; simpl.
    + intros [= <- <-]. simpl. repeat split; trivial. eauto.
    + destruct (frame_datagram encoded) as [data|e] eqn:Hd; simpl.
      * destruct (buffer t) as [|b buf]; [destruct (closed t)|];
          [| destruct (Socket.sendto addr so) as [[]|[]] |];
          run; intros [= <- <-]; simpl; repeat split; trivial; eauto.
        exists [Grab (monitor (self w)); Sendto data addr].
        split; [now rewrite <- app_assoc|].
        intros data' a Hin.
        apply elem_of_cons in Hin as [Hin | Hin]; [discriminate|].
        apply list_elem_of_singleton in Hin. congruence.
      * intros [= <- <-]. simpl. repeat split; trivial. eauto.
    + intros [= <- <-]. simpl. repeat split; trivial. eauto.
  - intros [= <- <-]. repeat split; trivial. exists [].
    split; [now rewrite app_nil_r|]. intros data a Hin. inversion Hin.
  - intros [= <- <-]. repeat split; trivial. exists [].
    split; [now rewrite app_nil_r|]. intros data a Hin. inversion Hin.
Qed.

(** A tick with an endpoint, an open transport that holds nothing back,
    a successful capture and a socket that takes the datagram. *)
Lemma send_frame_sends addr t frame so w :
  _client_addr (self w) = Some addr ->
  _transport (self w) = Some t ->
  closed t = false ->
  buffer t = [] ->
  Socket.sendto addr so = Ok tt ->
  Z.of_nat (length frame) <= Struct.uint32_max ->
  exists data,
    frame_datagram frame = Ok data
    /\ send_frame (Encoded true frame) so w
       = (Ok tt, mkWorld (self w)
                   (trace w ++ [Grab (monitor (self w)); Sendto data addr])).
Proof.
  intros Ha Ht Hopen Hbuf Hsock Hfit.
  destruct (frame_datagram_ok frame Hfit) as (hdr & _ & _ & Heq).
  exists (hdr ++ frame). split; [exact Heq|].
  unfold send_frame, capture_frame, DatagramTransport_sendto. run.
  rewrite Ha, Ht. simpl.
  rewrite Heq. simpl. rewrite Hbuf, Hopen, Hsock. run.
  now rewrite <- app_assoc.
Qed.

(** A tick on a transport that asyncio has closed: the frame is
    captured and framed, then [sendto] raises. *)
Lemma send_frame_closed addr t frame so w :
  _client_addr (self w) = Some addr ->
  _transport (self w) = Some t ->
  closed t = true ->
  buffer t = [] ->
  Z.of_nat (length frame) <= Struct.uint32_max ->
  send_frame (Encoded true frame) so w
  = (Raise AttributeError,
     mkWorld (self w) (trace w ++ [Grab (monitor (self w))])).
Proof.
  intros Ha Ht Hclosed Hbuf Hfit.
  destruct (frame_datagram_ok frame Hfit) as (hdr & _ & _ & Heq).
  unfold send_frame, capture_frame, DatagramTransport_sendto. run.
  rewrite Ha, Ht. simpl. rewrite Heq. simpl. now rewrite Hbuf, Hclosed.
Qed.

(** A tick whose datagram the socket refuses with an exception that is
    not an [OSError]: the tick does not raise, nothing is sent, and the
    transport is left closed. *)
Lemma send_frame_refused addr t frame so e w :
  _client_addr (self w) = Some addr ->
  _transport (self w) = Some t ->
  closed t = false ->
  buffer t = [] ->
  Socket.sendto addr so = Raise e ->
  fatal e = true ->
  Z.of_nat (length frame) <= Struct.uint32_max ->
  send_frame (Encoded true frame) so w
  = (Ok tt,
     mkWorld (with_transport (self w) (mkDatagramTransport (sockname t) true []))
             (trace w ++ [Grab (monitor (self w))])).
Proof.
  intros Ha Ht Hopen Hbuf Hsock Hfatal Hfit.
  destruct (frame_datagram_ok frame Hfit) as (hdr & _ & _ & Heq).
  unfold send_frame, capture_frame, DatagramTransport_sendto. run.
  rewrite Ha, Ht. simpl. rewrite Heq. simpl. rewrite Hbuf, Hopen, Hsock.
  destruct e; try discriminate Hfatal; reflexivity.
Qed.

(** A tick whose capture or encode fails. *)
Lemma send_frame_capture_fails addr t o so w :
  _client_addr (self w) = Some addr ->
  _transport (self w) = Some t ->
  capture_fails o ->
  exists e,
    send_frame o so w
    = (Raise e, mkWorld (self w) (trace w ++ [Grab (monitor (self w))])).
Proof.
  intros Ha Ht Hfail.
  unfold send_frame, capture_frame. run. rewrite Ha, Ht.
  destruct o as [e | success encoded]; simpl in *.
  - eauto.
  - subst success. simpl. eauto.
Qed.

Lemma capture_failure_ends_loop_aux addr t tk rest s :
  _client_addr (self (sys_world s)) = Some addr ->
  _transport (self (sys_world s)) = Some t ->
  capture_fails (screen tk) ->
  exists e,
    send_loop int_of_str (tk :: rest) s
    = (Raise e,
       mkSystem (mkWorld (self (sys_world s))
                   (trace (sys_world s) ++ [Grab (monitor (self (sys_world s)))]))
                (sys_handlers s)).
Proof.
  intros Ha Ht Hfail.
  destruct (send_frame_capture_fails addr t (screen tk) (socket tk)
              (sys_world s) Ha Ht Hfail) as (e & He).
  exists e. simpl. unfold mbind at 1, M_bind, in_world. now rewrite He.
Qed.

End ServerFacts.
Section ServerClaims.
Variable int_of_str : string -> option Z.

(** C2. Registration overwrite: after a register message for [(h1, p1)]
    and then one for [(h2, p2)], neither of which raises, the registered
    endpoint is [(h2, p2)]; the next tick, whatever the screen and the
    socket give, hands the socket nothing for anywhere else; and when
    the transport is bound, open and holds nothing back, a frame is
    captured and the socket takes the datagram for [(h2, p2)], the tick
    sends exactly one datagram, the framed frame, to [(h2, p2)]. *)
Theorem reregistration_overwrites
  (peer1 peer2 : string * Z) (m1 m2 : message)
  (h1 h2 : string) (p1 p2 : Z) (w : world) :
  register_for peer1 h1 p1 m1 ->
  register_for peer2 h2 p2 m2 ->
  exists w2,
    (handle_message int_of_str peer1 m1;;
     handle_message int_of_str peer2 m2) w = (Ok tt, w2)
    /\ self w2 = with_client_addr (self w) (JStr h2, p2)
    /\ trace w2
       = trace w ++ [LogRegistered (JStr h1, p1); LogRegistered (JStr h2, p2)]
    /\ (forall o so r w3 data a,
          send_frame o so w2 = (r, w3) ->
          Sendto data a ∈ trace w3 ->
          Sendto data a ∈ trace w2 \/ a = (JStr h2, p2))
    /\ (forall t frame so,
          _transport (self w) = Some t ->
          closed t = false ->
          buffer t = [] ->
          Socket.sendto (JStr h2, p2) so = Ok tt ->
          Z.of_nat (length frame) <= Struct.uint32_max ->
          exists data,
            frame_datagram frame = Ok data
            /\ send_frame (Encoded true frame) so w2
               = (Ok tt, mkWorld (self w2)
                           (trace w2 ++ [Grab (monitor (self w));
                                         Sendto data (JStr h2, p2)]))).
Proof.
  intros H1 H2.
  set (w2 := mkWorld (with_client_addr (self w) (JStr h2, p2))
                     (trace w ++ [LogRegistered (JStr h1, p1);
                                  LogRegistered (JStr h2, p2)])).
  exists w2. split.
  - unfold mbind at 1, M_bind.
    rewrite (handle_message_register int_of_str peer1 h1 p1 m1 w H1).
    rewrite (handle_message_register int_of_str peer2 h2 p2 m2 _ H2).
    unfold w2. simpl. now rewrite <- app_assoc.
  - split; [reflexivity|]. split; [reflexivity|]. split.
    + intros o so r w3 data a Hsend Hin.
      apply send_frame_target in Hsend as (_ & _ & new & Htr & Hnew).
      rewrite Htr in Hin. apply elem_of_app in Hin as [Hin | Hin].
      * now left.
      * right. apply Hnew in Hin. simpl in Hin. congruence.
    + intros t frame so Ht Hopen Hbuf Hsock Hfit.
      apply (send_frame_sends (JStr h2, p2) t frame so w2); auto.
Qed.

(** C7. A tick with no registered endpoint does nothing at all: no
    capture, no send, the world is as before. A tick with a registered
    endpoint (the transport bound, open and holding nothing back, the
    capture and the encoding successful, the length fitting the header,
    the socket taking the datagram) enters [capture_frame] once and
    sends exactly one datagram, the framed frame, to the current
    endpoint. *)
Theorem send_frame_tick (w : world) (o : grab_outcome) (so : Socket.outcome) :
  (_client_addr (self w) = None -> send_frame o so w = (Ok tt, w))
  /\ (forall addr t frame,
        _client_addr (self w) = Some addr ->
        _transport (self w) = Some t ->
        closed t = false ->
        buffer t = [] ->
        Socket.sendto addr so = Ok tt ->
        o = Encoded true frame ->
        Z.of_nat (length frame) <= Struct.uint32_max ->
        exists data,
          frame_datagram frame = Ok data
          /\ FramePacket.parse data
             = Ok (FramePacket.mk (Z.of_nat (length frame)) frame)
          /\ send_frame o so w
             = (Ok tt, mkWorld (self w)
                         (trace w ++ [Grab (monitor (self w));
                                      Sendto data addr]))).
Proof.
  split.
  - intros Ha. unfold send_frame. run. now rewrite Ha.
  - intros addr t frame Ha Ht Hopen Hbuf Hsock -> Hfit.
    destruct (send_frame_sends addr t frame so w Ha Ht Hopen Hbuf Hsock Hfit)
      as (data & Hd & Hs).
    exists data. eauto using parse_frame_datagram.
Qed.

(** C9. A command message is handed to [apply_control] exactly once,
    as a [ControlMessage] that carries exactly the payload received, and
    the server object, so the registered endpoint, is unchanged. *)
Theorem command_relayed
  (remote_address : string * Z) (msg : message) (pl : json) (w : world) :
  command_for pl msg ->
  handle_message int_of_str remote_address msg w
  = (Ok tt, mkWorld (self w)
              (trace w ++ [LogControl (ControlMessage.mk (JStr "command") pl)])).
Proof.
  intros (d & -> & Hty & Hpl).
  apply handle_message_other.
  - rewrite (from_json_obj d _ Hty), Hpl. reflexivity.
  - reflexivity.
Qed.

(** C10. A register message whose payload lacks ["port"], or whose port
    [int] refuses, raises before the endpoint is assigned: the world,
    and with it the registered endpoint, is exactly as before. *)
Theorem registration_atomic
  (remote_address : string * Z) (msg : message) (w : world) :
  register_without_port int_of_str msg ->
  exists e, handle_message int_of_str remote_address msg w = (Raise e, w).
Proof.
  intros (d & pl & -> & Hty & Hpl & Hport).
  unfold handle_message.
  rewrite (from_json_obj d _ Hty), Hpl. run.
  destruct Hport as [Hnone | (v & Hsome & e & He)].
  - rewrite Hnone. simpl. eauto.
  - rewrite Hsome. simpl. rewrite He. simpl. eauto.
Qed.

(** C3, amended. A message from which no [ControlMessage] can be built
    is not ignored: the exception leaves the handler, which stops with
    the world unchanged and never looks at the messages that follow. A
    message that decodes with an unknown type is not refused either: it
    goes to [apply_control] as a command does, and the handler moves on
    to the next message. *)
Theorem malformed_not_ignored
  (remote_address : string * Z) (msg : message) (rest : list message)
  (w : world) :
  malformed msg ->
  match ControlMessage.from_json msg with
  | Raise e =>
      handle_messages int_of_str remote_address (msg :: rest) w = (Raise e, w)
  | Ok c =>
      handle_messages int_of_str remote_address (msg :: rest) w
      = handle_messages int_of_str remote_address rest
          (mkWorld (self w) (trace w ++ [LogControl c]))
  end.
Proof.
  unfold malformed. intros Hbad.
  destruct (ControlMessage.from_json msg) as [c|e] eqn:Hc.
  - destruct Hbad as [Hreg _]. simpl.
    unfold mbind at 1, M_bind.
    rewrite (handle_message_other int_of_str remote_address msg c w Hc);
      [reflexivity | now apply eq_str_false].
  - simpl. unfold mbind at 1, M_bind.
    now rewrite (handle_message_raise int_of_str remote_address msg e w Hc).
Qed.

(** The same seen from [handle_control]: the connection is logged, then
    the handler ends on the exception. *)
Lemma handle_control_raise
  (remote_address : string * Z) (msg : message) (rest : list message)
  (e : exn) (w : world) :
  ControlMessage.from_json msg = Raise e ->
  handle_control int_of_str remote_address (msg :: rest) w
  = (Raise e, mkWorld (self w) (trace w ++ [LogConnected remote_address])).
Proof.
  intros Hc. unfold handle_control. run. unfold mbind at 1, M_bind.
  now rewrite (handle_message_raise int_of_str remote_address msg e _ Hc).
Qed.

(** C8, amended. A tick in which capture or encode fails (an endpoint
    being registered and the transport bound) is fatal for the loop:
    the exception leaves [send_frame] and the [while True] of [start],
    nothing is sent, and nothing that follows runs: neither the sleep
    of that tick, with the handlers that would have run during it, nor
    any later tick. *)
Theorem capture_failure_ends_loop
  (addr : address) (t : DatagramTransport) (tk : tick) (rest : list tick)
  (s : system) :
  _client_addr (self (sys_world s)) = Some addr ->
  _transport (self (sys_world s)) = Some t ->
  capture_fails (screen tk) ->
  exists e,
    send_loop int_of_str (tk :: rest) s
    = (Raise e,
       mkSystem (mkWorld (self (sys_world s))
                   (trace (sys_world s) ++ [Grab (monitor (self (sys_world s)))]))
                (sys_handlers s)).
Proof.
  intros Ha Ht Hfail. now apply (capture_failure_ends_loop_aux int_of_str addr t).
Qed.

(** The same seen from [start] when a viewer registers while the
    datagram endpoint is being bound: the exception leaves [start]
    itself, and with it [main] and [asyncio.run]. *)
Lemma start_capture_failure
  (addr : address) (name : string * Z) (binding : list loop_event)
  (tk : tick) (rest : list tick) (s : system) :
  let s1 := run_events int_of_str binding
              (mkSystem (mkWorld (self (sys_world s))
                           (trace (sys_world s) ++ [Listening]))
                        (sys_handlers s)) in
  _client_addr (self (sys_world s1)) = Some addr ->
  capture_fails (screen tk) ->
  exists e,
    start int_of_str (Ok tt) binding (Ok name) (tk :: rest) s
    = (Raise e,
       mkSystem
         (mkWorld (with_transport (self (sys_world s1))
                     (mkDatagramTransport name false []))
                  (trace (sys_world s1)
                   ++ [LogReady; Grab (monitor (self (sys_world s1)))]))
         (sys_handlers s1)).
Proof.
  intros s1 Ha Hfail.
  change (start int_of_str (Ok tt) binding (Ok name) (tk :: rest) s)
    with (send_loop int_of_str (tk :: rest)
            (mkSystem
               (mkWorld (with_transport (self (sys_world s1))
                           (mkDatagramTransport name false []))
                        (trace (sys_world s1) ++ [LogReady]))
               (sys_handlers s1))).
  destruct (capture_failure_ends_loop_aux int_of_str addr
              (mkDatagramTransport name false []) tk rest
              (mkSystem
                 (mkWorld (with_transport (self (sys_world s1))
                             (mkDatagramTransport name false []))
                          (trace (sys_world s1) ++ [LogReady]))
                 (sys_handlers s1)))
    as (e & He); auto.
  exists e. rewrite He. simpl. now rewrite <- app_assoc.
Qed.

End ServerClaims.
(** ** Properties of the client *)

Section ClientFacts.
Variable image : Type.
Variable imdecode : list byte -> imdecode_result image.

(** A datagram without a full header ends the receive task. *)
Lemma receive_frames_short data rest tr :
  (length data < 4)%nat ->
  receive_frames image imdecode (data :: rest) tr = (Raise StructError, tr).
Proof.
  intros Hlen. simpl. run. now rewrite parse_short.
Qed.

(** A payload the decoder answers [None] for is dropped. *)
Lemma receive_frames_drop data rest tr :
  undecodable imdecode data ->
  receive_frames image imdecode (data :: rest) tr
  = receive_frames image imdecode rest tr.
Proof.
  intros (pk & Hpk & Hdec). simpl. run. rewrite Hpk. simpl.
  unfold display_frame. now rewrite Hdec.
Qed.

(** A well-formed datagram is decoded and shown. *)
Lemma receive_frames_show p img data rest tr :
  frame_datagram p = Ok data ->
  imdecode p = Decoded image img ->
  receive_frames image imdecode (data :: rest) tr
  = receive_frames image imdecode rest (tr ++ [Imshow image img; WaitKey image 1]).
Proof.
  intros Hfr Hdec. simpl. run.
  rewrite (parse_frame_datagram p data Hfr). simpl.
  unfold display_frame. rewrite Hdec. run. now rewrite <- app_assoc.
Qed.

Lemma displayed_app tr1 tr2 :
  displayed image (tr1 ++ tr2) = displayed image tr1 ++ displayed image tr2.
Proof.
  unfold displayed. apply omap_app.
Qed.

(** C6, amended. When the first datagram has its four header bytes and
    a payload that the decoder answers [None] for, and the second is
    well formed, the receive loop drops the first, decodes and shows
    exactly one frame, that of the second, and goes on with whatever
    datagrams follow. *)
Theorem corrupt_payload_dropped
  (bad good : list byte) (rest : list (list byte)) (tr : list (shown image)) :
  undecodable imdecode bad ->
  well_formed imdecode good ->
  exists img,
    receive_frames image imdecode (bad :: good :: rest) tr
    = receive_frames image imdecode rest
        (tr ++ [Imshow image img; WaitKey image 1])
    /\ receive_frames image imdecode [bad; good] tr
       = (Ok tt, tr ++ [Imshow image img; WaitKey image 1])
    /\ displayed image (tr ++ [Imshow image img; WaitKey image 1])
       = displayed image tr ++ [img].
Proof.
  intros Hbad (p & img & Hfr & Hdec). exists img.
  rewrite !(receive_frames_drop bad) by exact Hbad.
  rewrite !(receive_frames_show p img good) by assumption.
  repeat split. now rewrite displayed_app.
Qed.

End ClientFacts.

(** ** Closed instances *)

Section Closed.
Import Sample.

Lemma register_for_inferred :
  register_for peer "192.0.2.7" 10000 register_inferred.
Proof.
  eexists _, _. split; [reflexivity|].
  repeat split; try (vm_compute; reflexivity).
  right. split; [right|]; vm_compute; reflexivity.
Qed.

Lemma register_for_explicit :
  register_for other_peer "198.51.100.4" 10001 register_explicit.
Proof.
  eexists _, _. split; [reflexivity|].
  repeat split; try (vm_compute; reflexivity).
  left. split; [vm_compute; reflexivity | discriminate].
Qed.

Lemma reregistration_overwrites_witness :
  exists w2,
    (handle_message Py.decimal_int_of_str peer register_inferred;;
     handle_message Py.decimal_int_of_str other_peer register_explicit) streaming
    = (Ok tt, w2)
    /\ _client_addr (self w2) = Some (JStr "198.51.100.4", 10001)
    /\ exists data,
         frame_datagram jpeg = Ok data
         /\ send_frame (Encoded true jpeg) Socket.Sent w2
            = (Ok tt, mkWorld (self w2)
                        (trace w2 ++ [Grab 0; Sendto data (JStr "198.51.100.4", 10001)])).
Proof.
  destruct (reregistration_overwrites Py.decimal_int_of_str
              peer other_peer register_inferred register_explicit
              "192.0.2.7" "198.51.100.4" 10000 10001 streaming
              register_for_inferred register_for_explicit)
    as (w2 & Hrun & Hself & _ & _ & Hsend).
  exists w2. split; [exact Hrun|]. split; [rewrite Hself; reflexivity|].
  apply (Hsend bound_transport jpeg Socket.Sent); try reflexivity.
  vm_compute. discriminate.
Defined.

Lemma send_frame_tick_witness :
  send_frame (Encoded true jpeg) Socket.Sent fresh = (Ok tt, fresh)
  /\ exists data,
       frame_datagram jpeg = Ok data
       /\ FramePacket.parse data = Ok (FramePacket.mk 4 jpeg)
       /\ send_frame (Encoded true jpeg) Socket.Sent streaming
          = (Ok tt, mkWorld (self streaming)
                      [Grab 0; Sendto data (JStr "127.0.0.1", 10000)]).
Proof.
  split.
  - apply (proj1 (send_frame_tick fresh (Encoded true jpeg) Socket.Sent)).
    reflexivity.
  - apply (proj2 (send_frame_tick streaming (Encoded true jpeg) Socket.Sent)
             (JStr "127.0.0.1", 10000) bound_transport jpeg);
      try reflexivity.
    vm_compute. discriminate.
Defined.

Lemma command_relayed_witness :
  handle_message Py.decimal_int_of_str peer click streaming
  = (Ok tt, mkWorld (self streaming)
              [LogControl (ControlMessage.mk (JStr "command") click_payload)]).
Proof.
  apply (command_relayed Py.decimal_int_of_str peer click click_payload streaming).
  eexists. split; [reflexivity|]. split; vm_compute; reflexivity.
Defined.

Lemma registration_atomic_witness :
  exists e,
    handle_message Py.decimal_int_of_str peer register_portless streaming
    = (Raise e, streaming).
Proof.
  apply (registration_atomic Py.decimal_int_of_str peer register_portless streaming).
  eexists _, _. split; [reflexivity|].
  repeat split; try (vm_compute; reflexivity).
  left. vm_compute. reflexivity.
Defined.

(** C3, as stated, fails twice over. An unparseable message ends the
    handler, and the command behind it is never applied; a message of
    unknown type is applied like a command. *)
Lemma malformed_control_not_ignored :
  (malformed unparseable
   /\ ~ logged_and_ignored Py.decimal_int_of_str peer unparseable [click] fresh)
  /\ (malformed unknown_type
      /\ ~ logged_and_ignored Py.decimal_int_of_str peer unknown_type [] fresh).
Proof.
  assert (Hty : ControlMessage.from_json unknown_type
                = Ok (ControlMessage.mk (JStr "resize") (JObj ∅))).
  { unfold unknown_type. erewrite from_json_obj by (vm_compute; reflexivity).
    do 2 f_equal. }
  split; split.
  - exact I.
  - intros (w1 & Hh & _).
    rewrite (handle_message_raise _ _ _ JSONDecodeError) in Hh by reflexivity.
    discriminate Hh.
  - unfold malformed. rewrite Hty. split; discriminate.
  - intros (w1 & Hh & _ & Hlog & _).
    rewrite (handle_message_other _ _ _ _ _ Hty) in Hh by reflexivity.
    injection Hh as <-.
    specialize (Hlog (ControlMessage.mk (JStr "resize") (JObj ∅))).
    simpl in Hlog. apply elem_of_nil in Hlog; [exact Hlog|].
    apply list_elem_of_singleton. reflexivity.
Qed.

Lemma malformed_not_ignored_witness :
  handle_messages Py.decimal_int_of_str peer [unparseable; click] fresh
  = (Raise JSONDecodeError, fresh).
Proof.
  apply (malformed_not_ignored Py.decimal_int_of_str peer unparseable [click] fresh).
  exact I.
Defined.

(** C8, as stated, fails: with a viewer registered, a tick whose
    encoding fails ends the send loop; the tick after it never runs. *)
Lemma encode_failure_is_fatal :
  send_loop Py.decimal_int_of_str
    [quiet_tick (Encoded false []); quiet_tick (Encoded true jpeg)]
    streaming_system
  = (Raise (RuntimeError "Failed to encode frame"),
     mkSystem (mkWorld (self streaming) [Grab 0]) [Some peer])
  /\ ~ failure_is_tick_local Py.decimal_int_of_str
         (quiet_tick (Encoded false [])) [quiet_tick (Encoded true jpeg)]
         streaming_system.
Proof.
  split; [reflexivity|].
  intros H. destruct H as (s1 & Hself & Heq); [reflexivity|].
  destruct s1 as [[sv tr] hs]. simpl in Hself. subst sv.
  vm_compute in Heq. discriminate Heq.
Qed.

Lemma capture_failure_ends_loop_witness :
  exists e,
    send_loop Py.decimal_int_of_str
      [quiet_tick (Encoded false []); quiet_tick (Encoded true jpeg)]
      streaming_system
    = (Raise e, mkSystem (mkWorld (self streaming) [Grab 0]) [Some peer]).
Proof.
  apply (capture_failure_ends_loop Py.decimal_int_of_str
           (JStr "127.0.0.1", 10000) bound_transport
           (quiet_tick (Encoded false [])) [quiet_tick (Encoded true jpeg)]
           streaming_system);
    reflexivity.
Defined.

Lemma short_datagram_malformed :
  ~ well_formed marker_decoder short_datagram.
Proof.
  intros (p & img & Hfr & _).
  apply frame_datagram_length in Hfr. simpl in Hfr. lia.
Qed.

Lemma jpeg_datagram_well_formed : well_formed marker_decoder jpeg_datagram.
Proof.
  exists jpeg, jpeg. split; reflexivity.
Qed.

(** C6, as stated, fails: a datagram shorter than the header is
    malformed, and it ends the receive task with [struct.error]; the
    well-formed datagram behind it is never shown. *)
Lemma short_datagram_ends_receive_loop :
  receive_frames _ marker_decoder [short_datagram; jpeg_datagram] []
  = (Raise StructError, [])
  /\ ~ survives_malformed marker_decoder short_datagram jpeg_datagram.
Proof.
  split; [reflexivity|].
  intros H.
  destruct (H short_datagram_malformed jpeg_datagram_well_formed)
    as (tr & Hrun & _).
  discriminate Hrun.
Qed.

Lemma corrupt_payload_dropped_witness :
  exists img,
    receive_frames _ marker_decoder [noise_datagram; jpeg_datagram] []
    = (Ok tt, [Imshow _ img; WaitKey _ 1]).
Proof.
  destruct (corrupt_payload_dropped _ marker_decoder
              noise_datagram jpeg_datagram [] []) as (img & _ & Hrun & _).
  - eexists. split; reflexivity.
  - exact jpeg_datagram_well_formed.
  - exists img. exact Hrun.
Defined.

End Closed.

(** ** More on the framer *)

Section FramerMore.
Import Struct FramePacket.

Lemma byte_of_Z_of_byte b : byte_of_Z (Z_of_byte b) = b.
Proof.
  unfold byte_of_Z. rewrite Z.mod_small by apply Z_of_byte_range.
  unfold Z_of_byte. rewrite N2Z.id, Byte.of_to_N. reflexivity.
Qed.

Lemma byte_of_Z_mod z b : z mod 256 = Z_of_byte b -> byte_of_Z z = b.
Proof.
  intros H. pose proof (byte_of_Z_of_byte b) as Hb.
  unfold byte_of_Z in *. rewrite H.
  rewrite Z.mod_small in Hb by apply Z_of_byte_range. exact Hb.
Qed.

Lemma pack_of_unpack_aux buf n : unpack_I buf = Ok n -> pack_I n = Ok buf.
Proof.
  intros Hun. pose proof (unpack_I_range buf n Hun) as Hr.
  destruct buf as [|b3 [|b2 [|b1 [|b0 [|? ?]]]]]; try discriminate.
  injection Hun as <-.
  pose proof (Z_of_byte_range b3). pose proof (Z_of_byte_range b2).
  pose proof (Z_of_byte_range b1). pose proof (Z_of_byte_range b0).
  unfold pack_I.
  replace ((0 <=? _) && (_ <=? uint32_max)) with true
    by (symmetry; apply andb_true_intro; split; lia).
  repeat f_equal; apply byte_of_Z_mod;
    (Z.div_mod_to_equations; lia).
Qed.

Lemma frame_datagram_shape_aux frame data :
  frame_datagram frame = Ok data ->
  length data = (4 + length frame)%nat
  /\ unpack_I (take 4 data) = Ok (Z.of_nat (length frame))
  /\ drop 4 data = frame.
Proof.
  intros Hfr.
  destruct (Z_le_gt_dec (Z.of_nat (length frame)) uint32_max) as [Hfit|Hbig].
  - destruct (frame_datagram_ok frame Hfit) as (hdr & Hl & Hun & Heq).
    rewrite Heq in Hfr. injection Hfr as <-.
    rewrite length_app, Hl.
    rewrite take_app_length' by (symmetry; exact Hl).
    rewrite drop_app_length' by (symmetry; exact Hl). auto.
  - rewrite frame_datagram_overflow in Hfr by lia. discriminate.
Qed.

(** X1. The header encoding is canonical: packing the number that four
    bytes unpack to gives back those four bytes. *)
Theorem pack_of_unpack (buf : list byte) (n : Z) :
  unpack_I buf = Ok n -> pack_I n = Ok buf.
Proof. apply pack_of_unpack_aux. Qed.

Lemma pack_of_unpack_witness : pack_I 258 = Ok [x00; x00; x01; x02].
Proof. apply (pack_of_unpack [x00; x00; x01; x02] 258). reflexivity. Defined.

(** X2. [FramePacket.parse] fails exactly on buffers of fewer than four
    bytes, and then with [struct.error]; every longer buffer yields a
    packet. *)
Theorem parse_fails_iff_short (raw : list byte) :
  (raises (parse raw) <-> (length raw < 4)%nat)
  /\ (forall e, parse raw = Raise e -> e = StructError).
Proof.
  split; [split|].
  - intros [e He].
    destruct (le_lt_dec 4 (length raw)) as [Hlong|Hshort]; [|exact Hshort].
    destruct (parse_long raw Hlong) as [pk Hpk]. congruence.
  - intros Hshort. exists StructError. now apply parse_short.
  - intros e He.
    destruct (le_lt_dec 4 (length raw)) as [Hlong|Hshort].
    + destruct (parse_long raw Hlong) as [pk Hpk]. congruence.
    + rewrite parse_short in He by exact Hshort. congruence.
Qed.

(** X3. What a parsed packet satisfies: the declared size is an unsigned
    32-bit number, the payload has [min(size, len(raw) - 4)] bytes, and
    the dataclass invariant [size = len(payload)] holds exactly when the
    buffer holds all the bytes it declares. *)
Theorem parse_packet_bounds (raw : list byte) (pk : FramePacket.t) :
  parse raw = Ok pk ->
  0 <= size pk <= uint32_max
  /\ Z.of_nat (length (payload pk)) = Z.min (size pk) (Z.of_nat (length raw) - 4)
  /\ (Z.of_nat (length (payload pk)) = size pk
      <-> 4 + size pk <= Z.of_nat (length raw)).
Proof.
  unfold parse. intros Hp.
  destruct (unpack_I (take 4 raw)) as [n|e] eqn:Hun; [|discriminate].
  injection Hp as <-. simpl.
  pose proof (unpack_I_range _ _ Hun) as Hr.
  apply unpack_I_length in Hun. rewrite length_take in Hun.
  rewrite length_take, length_drop. split; [exact Hr|]. lia.
Qed.

Lemma parse_packet_bounds_witness :
  0 <= 5 <= uint32_max
  /\ Z.of_nat (length [x01; x02]) = Z.min 5 (Z.of_nat 6 - 4)
  /\ (Z.of_nat (length [x01; x02]) = 5 <-> 4 + 5 <= Z.of_nat 6).
Proof.
  apply (parse_packet_bounds [x00; x00; x00; x05; x01; x02]
           (mk 5 [x01; x02])).
  reflexivity.
Defined.

(** X4. Bytes after the declared payload are ignored: a buffer that
    holds all the bytes it declares parses to the same packet whatever
    is appended to it. *)
Theorem parse_ignores_trailing (raw extra : list byte) (pk : FramePacket.t) :
  parse raw = Ok pk ->
  4 + size pk <= Z.of_nat (length raw) ->
  parse (raw ++ extra) = Ok pk.
Proof.
  unfold parse. intros Hp Hfull.
  destruct (unpack_I (take 4 raw)) as [n|e] eqn:Hun; [|discriminate].
  injection Hp as <-. simpl in Hfull.
  pose proof (unpack_I_range _ _ Hun) as Hr.
  pose proof (unpack_I_length _ _ Hun) as Hl. rewrite length_take in Hl.
  rewrite take_app_le by lia. rewrite Hun. simpl.
  rewrite drop_app_le by lia.
  rewrite take_app_le by (rewrite length_drop; lia). reflexivity.
Qed.

Lemma parse_ignores_trailing_witness :
  parse ([x00; x00; x00; x01; xaa] ++ [xbb; xcc]) = Ok (mk 1 [xaa]).
Proof.
  apply (parse_ignores_trailing [x00; x00; x00; x01; xaa] [xbb; xcc]
           (mk 1 [xaa])); [reflexivity | vm_compute; discriminate].
Defined.

(** X5. A datagram built by the send path is the frame behind a four-byte
    header that encodes the frame's length: four bytes longer than the
    frame, and the frame is what follows the header. *)
Theorem frame_datagram_shape (frame data : list byte) :
  frame_datagram frame = Ok data ->
  length data = (4 + length frame)%nat
  /\ unpack_I (take 4 data) = Ok (Z.of_nat (length frame))
  /\ drop 4 data = frame.
Proof. apply frame_datagram_shape_aux. Qed.

Lemma frame_datagram_shape_witness :
  length [x00; x00; x00; x02; xff; xd8] = (4 + length [xff; xd8])%nat
  /\ unpack_I (take 4 [x00; x00; x00; x02; xff; xd8])
     = Ok (Z.of_nat (length [xff; xd8]))
  /\ drop 4 [x00; x00; x00; x02; xff; xd8] = [xff; xd8].
Proof.
  apply (frame_datagram_shape [xff; xd8] [x00; x00; x00; x02; xff; xd8]).
  reflexivity.
Defined.

(** X6. Framing is injective: two frames with the same datagram are the
    same frame. *)
Theorem frame_datagram_injective (frame1 frame2 data : list byte) :
  frame_datagram frame1 = Ok data ->
  frame_datagram frame2 = Ok data ->
  frame1 = frame2.
Proof.
  intros H1 H2.
  apply frame_datagram_shape_aux in H1 as (_ & _ & <-).
  apply frame_datagram_shape_aux in H2 as (_ & _ & <-). reflexivity.
Qed.

Lemma frame_datagram_injective_witness : [xff; xd8] = [xff; xd8].
Proof.
  apply (frame_datagram_injective [xff; xd8] [xff; xd8]
           [x00; x00; x00; x02; xff; xd8]); reflexivity.
Defined.

(** X7. The framing step fails exactly when the frame is longer than
    [2^32 - 1] bytes, and then with [struct.error]. *)
Theorem frame_datagram_fails_iff (frame : list byte) :
  (raises (frame_datagram frame) <-> uint32_max < Z.of_nat (length frame))
  /\ (forall e, frame_datagram frame = Raise e -> e = StructError).
Proof.
  destruct (Z_le_gt_dec (Z.of_nat (length frame)) uint32_max) as [Hfit|Hbig].
  - destruct (frame_datagram_ok frame Hfit) as (hdr & _ & _ & Heq).
    rewrite Heq. split; [split|].
    + intros [e He]. discriminate.
    + lia.
    + intros e He. discriminate.
  - rewrite frame_datagram_overflow by lia. split; [split|].
    + lia.
    + intros _. now exists StructError.
    + intros e He. congruence.
Qed.

(** X8. Decoding then encoding: when a parsed packet carries all the
    bytes it declares, framing its payload gives back the buffer up to
    the end of the payload. *)
Theorem frame_of_parse (raw : list byte) (pk : FramePacket.t) :
  parse raw = Ok pk ->
  4 + size pk <= Z.of_nat (length raw) ->
  frame_datagram (payload pk) = Ok (take (4 + Z.to_nat (size pk)) raw).
Proof.
  unfold parse. intros Hp Hfull.
  destruct (unpack_I (take 4 raw)) as [n|e] eqn:Hun; [|discriminate].
  injection Hp as <-. simpl in *.
  pose proof (unpack_I_range _ _ Hun) as Hr.
  unfold frame_datagram.
  rewrite length_take, length_drop.
  replace (Z.of_nat (Z.to_nat n `min` (length raw - 4))) with n by lia.
  rewrite (pack_of_unpack_aux _ _ Hun). simpl. f_equal.
  rewrite <- (take_drop 4 raw) at 3.
  rewrite take_app_ge by (rewrite length_take; lia).
  rewrite length_take. do 2 f_equal. lia.
Qed.

Lemma frame_of_parse_witness :
  frame_datagram [xaa]
  = Ok (take (4 + Z.to_nat 1) [x00; x00; x00; x01; xaa; xbb]).
Proof.
  apply (frame_of_parse [x00; x00; x00; x01; xaa; xbb] (mk 1 [xaa]));
    [reflexivity | vm_compute; discriminate].
Defined.

End FramerMore.

(** ** More on the server *)

Section ServerMore.
Variable int_of_str : string -> option Z.

(** The three ways one message can end. *)
Lemma handle_message_cases remote_address msg w :
  (exists e, handle_message int_of_str remote_address msg w = (Raise e, w))
  \/ (exists addr,
        handle_message int_of_str remote_address msg w
        = (Ok tt, mkWorld (with_client_addr (self w) addr)
                    (trace w ++ [LogRegistered addr])))
  \/ (exists c,
        handle_message int_of_str remote_address msg w
        = (Ok tt, mkWorld (self w) (trace w ++ [LogControl c]))).
Proof.
  unfold handle_message. run.
  destruct (ControlMessage.from_json msg) as [c|e]; simpl; [|eauto].
  destruct (Py.eq_str (ControlMessage.type c) "register"); simpl; [|eauto].
  destruct (Py.dict_get (ControlMessage.payload c) "host" JNull) as [h|e];
    simpl; [|eauto].
  destruct (Py.getitem (ControlMessage.payload c) "port") as [v|e];
    simpl; [|eauto].
  destruct (Py.int int_of_str v) as [p|e]; simpl; eauto.
Qed.

Lemma handle_messages_app remote_address msgs1 msgs2 w :
  handle_messages int_of_str remote_address (msgs1 ++ msgs2) w
  = match handle_messages int_of_str remote_address msgs1 w with
    | (Ok _, w1) => handle_messages int_of_str remote_address msgs2 w1
    | (Raise e, w1) => (Raise e, w1)
    end.
Proof.
  revert w. induction msgs1 as [|m msgs1 IH]; intros w; [reflexivity|].
  simpl. unfold mbind, M_bind.
  destruct (handle_message int_of_str remote_address m w) as [[[]|e] w1];
    [apply IH | reflexivity].
Qed.

Lemma handle_message_frame remote_address msg w r w' :
  handle_message int_of_str remote_address msg w = (r, w') ->
  _transport (self w') = _transport (self w)
  /\ video_host (self w') = video_host (self w)
  /\ video_port (self w') = video_port (self w)
  /\ monitor (self w') = monitor (self w)
  /\ exists new, trace w' = trace w ++ new /\ Forall (fun e => is_io e = false) new.
Proof.
  intros H.
  destruct (handle_message_cases remote_address msg w)
    as [[e He] | [[addr He] | [c He]]];
    rewrite He in H; injection H as <- <-; simpl; repeat split; trivial.
  - exists []. now rewrite app_nil_r.
  - eexists. split; [reflexivity|]. repeat constructor.
  - eexists. split; [reflexivity|]. repeat constructor.
Qed.

Lemma handle_messages_frame remote_address msgs w r w' :
  handle_messages int_of_str remote_address msgs w = (r, w') ->
  _transport (self w') = _transport (self w)
  /\ video_host (self w') = video_host (self w)
  /\ video_port (self w') = video_port (self w)
  /\ monitor (self w') = monitor (self w)
  /\ exists new, trace w' = trace w ++ new /\ Forall (fun e => is_io e = false) new.
Proof.
  revert w. induction msgs as [|m msgs IH]; intros w H.
  - injection H as <- <-. repeat split; trivial.
    exists []. now rewrite app_nil_r.
  - simpl in H. unfold mbind at 1, M_bind in H.
    destruct (handle_message int_of_str remote_address m w) as [[[]|e] w1] eqn:Hm.
    + apply handle_message_frame in Hm as (T1 & H1 & P1 & M1 & n1 & E1 & F1).
      apply IH in H as (T2 & H2 & P2 & M2 & n2 & E2 & F2).
      repeat split; try congruence.
      exists (n1 ++ n2). split; [|now apply Forall_app].
      rewrite E2, E1. now rewrite app_assoc.
    + injection H as <- <-. now apply handle_message_frame in Hm.
Qed.

(** X9. The handler is all-or-nothing per message: whenever handling a
    message raises, whatever the message and the exception, the server
    object and the trace are exactly what they were before it. *)
Theorem handle_message_exception_safe
  (remote_address : string * Z) (msg : message) (w w' : world) (e : exn) :
  handle_message int_of_str remote_address msg w = (Raise e, w') -> w' = w.
Proof.
  intros H.
  destruct (handle_message_cases remote_address msg w)
    as [[e' He] | [[addr He] | [c He]]];
    rewrite He in H; congruence.
Qed.

(** X10. Serving a control connection never captures the screen and
    never sends a datagram, and it leaves the transport, the video
    address and the monitor of the server untouched, whatever the
    messages and however the handler ends. *)
Theorem handle_control_no_io
  (remote_address : string * Z) (msgs : list message) (w w' : world)
  (r : result unit) :
  handle_control int_of_str remote_address msgs w = (r, w') ->
  _transport (self w') = _transport (self w)
  /\ video_host (self w') = video_host (self w)
  /\ video_port (self w') = video_port (self w)
  /\ monitor (self w') = monitor (self w)
  /\ exists new, trace w' = trace w ++ new /\ Forall (fun e => is_io e = false) new.
Proof.
  unfold handle_control. unfold mbind at 1, M_bind. unfold emit, modify.
  intros H. apply handle_messages_frame in H as (T & H1 & P & Mo & n & E & F).
  simpl in *. repeat split; trivial.
  exists (LogConnected remote_address :: n). split.
  - rewrite E. now rewrite <- app_assoc.
  - constructor; [reflexivity | exact F].
Qed.

(** X11. How a register message is read: the port is whatever [int]
    makes of the value given (it is not range-checked), a host that is
    truthy is stored as given, and a host that is absent, null, empty or
    otherwise falsy is replaced by the peer address of the connection. *)
Theorem register_resolves_endpoint
  (remote_address : string * Z) (d pl : gmap string json) (v : json) (p : Z)
  (w : world) :
  d !! "type" = Some (JStr "register") ->
  d !! "payload" = Some (JObj pl) ->
  pl !! "port" = Some v ->
  Py.int int_of_str v = Ok p ->
  let host_given := default JNull (pl !! "host") in
  let host := if Py.truthy host_given then host_given
              else JStr (fst remote_address) in
  handle_message int_of_str remote_address (Ok (JObj d)) w
  = (Ok tt, mkWorld (with_client_addr (self w) (host, p))
              (trace w ++ [LogRegistered (host, p)])).
Proof.
  intros Hty Hpl Hport Hint. simpl.
  unfold handle_message.
  rewrite (from_json_obj d _ Hty), Hpl. run.
  rewrite Hport. simpl. rewrite Hint. reflexivity.
Qed.

Lemma send_frame_idle o so w :
  _client_addr (self w) = None -> send_frame o so w = (Ok tt, w).
Proof.
  intros Ha. unfold send_frame. run. now rewrite Ha.
Qed.

(** Whether a message makes the handler raise, and with what, does not
    depend on the state of the server; and then the state is left as it
    was. *)
Lemma handle_message_raise_indep remote_address msg e w0 w0' w :
  handle_message int_of_str remote_address msg w0 = (Raise e, w0') ->
  handle_message int_of_str remote_address msg w = (Raise e, w).
Proof.
  unfold handle_message. run.
  destruct (ControlMessage.from_json msg) as [c|e1]; simpl; [|congruence].
  destruct (Py.eq_str (ControlMessage.type c) "register"); simpl;
    [|discriminate].
  destruct (Py.dict_get (ControlMessage.payload c) "host" JNull) as [h|e1];
    simpl; [|congruence].
  destruct (Py.getitem (ControlMessage.payload c) "port") as [v|e1];
    simpl; [|congruence].
  destruct (Py.int int_of_str v) as [p|e1]; simpl; [discriminate|congruence].
Qed.

(** A message that does not take the registration branch leaves the
    server object alone. *)
Lemma handle_message_not_register remote_address msg w :
  is_register msg = false ->
  exists r new,
    handle_message int_of_str remote_address msg w
    = (r, mkWorld (self w) (trace w ++ new))
    /\ Forall (fun e => is_io e = false) new.
Proof.
  unfold is_register. intros Hreg.
  destruct (ControlMessage.from_json msg) as [c|e] eqn:Hc.
  - exists (Ok tt), [LogControl c]. split; [|repeat constructor].
    now apply handle_message_other.
  - exists (Raise e), []. split; [|constructor].
    rewrite (handle_message_raise int_of_str remote_address msg e w Hc).
    rewrite app_nil_r. now destruct w.
Qed.

Lemma with_transport_same sv t :
  _transport sv = Some t -> with_transport sv t = sv.
Proof.
  destruct sv. simpl. now intros ->.
Qed.

(** With nothing held back, the transport's writer has nothing to do. *)
Lemma writable_idle os s :
  holds_back (self (sys_world s)) = [] ->
  loop_step int_of_str s (Writable os) = s.
Proof.
  unfold holds_back. simpl.
  destruct (_transport (self (sys_world s))) as [t|] eqn:Ht; [|reflexivity].
  intros Hbuf. destruct (closed t) eqn:Hc; [reflexivity|].
  rewrite Hbuf. simpl. rewrite app_nil_r.
  replace (mkDatagramTransport (sockname t) false []) with t
    by (destruct t; simpl in *; congruence).
  rewrite (with_transport_same _ t Ht). now destruct s as [[sv tr] hs].
Qed.

(** What one event of the loop can do, nothing being held back: it adds
    log lines only, it leaves the transport alone, and the endpoint
    changes exactly as the registrations logged say. *)
Lemma loop_step_frame s ev :
  holds_back (self (sys_world s)) = [] ->
  let s' := loop_step int_of_str s ev in
  _transport (self (sys_world s')) = _transport (self (sys_world s))
  /\ monitor (self (sys_world s')) = monitor (self (sys_world s))
  /\ exists new,
       trace (sys_world s') = trace (sys_world s) ++ new
       /\ Forall (fun e => is_io e = false) new
       /\ _client_addr (self (sys_world s'))
          = last_registered (_client_addr (self (sys_world s))) new
       /\ (registers ev = false -> self (sys_world s') = self (sys_world s)).
Proof.
  intros Hbuf. destruct ev as [remote | conn msg | conn | os].
  - simpl. repeat split. exists [LogConnected remote].
    repeat split. repeat constructor.
  - simpl.
    destruct (sys_handlers s !! conn) as [[remote|]|];
      try (repeat split; exists []; rewrite app_nil_r;
           repeat split; constructor).
    unfold is_register.
    destruct (ControlMessage.from_json msg) as [c|e] eqn:Hc.
    + destruct (Py.eq_str (ControlMessage.type c) "register") eqn:Hty.
      * destruct (handle_message_cases remote msg (sys_world s))
          as [[e He] | [[addr He] | [c' He]]]; rewrite He; simpl.
        -- repeat split. exists []. rewrite app_nil_r.
           repeat split; try discriminate. constructor.
        -- repeat split. exists [LogRegistered addr].
           repeat split; try discriminate. repeat constructor.
        -- repeat split. exists [LogControl c'].
           repeat split; try discriminate. repeat constructor.
      * rewrite (handle_message_other int_of_str remote msg c _ Hc Hty).
        simpl. repeat split.
        exists [LogControl c]. repeat split. repeat constructor.
    + rewrite (handle_message_raise int_of_str remote msg e _ Hc). simpl.
      repeat split. exists []. rewrite app_nil_r. repeat split. constructor.
  - simpl. repeat split. exists []. rewrite app_nil_r.
    repeat split. constructor.
  - rewrite (writable_idle os s Hbuf). simpl. repeat split.
    exists []. rewrite app_nil_r. repeat split. constructor.
Qed.

Lemma last_registered_app init tr1 tr2 :
  last_registered init (tr1 ++ tr2)
  = last_registered (last_registered init tr1) tr2.
Proof. apply fold_left_app. Qed.

Lemma holds_back_transport sv sv' :
  _transport sv' = _transport sv -> holds_back sv' = holds_back sv.
Proof. unfold holds_back. now intros ->. Qed.

Lemma run_events_frame evs s :
  holds_back (self (sys_world s)) = [] ->
  let s' := run_events int_of_str evs s in
  _transport (self (sys_world s')) = _transport (self (sys_world s))
  /\ monitor (self (sys_world s')) = monitor (self (sys_world s))
  /\ exists new,
       trace (sys_world s') = trace (sys_world s) ++ new
       /\ Forall (fun e => is_io e = false) new
       /\ _client_addr (self (sys_world s'))
          = last_registered (_client_addr (self (sys_world s))) new
       /\ (Forall (fun ev => registers ev = false) evs ->
           self (sys_world s') = self (sys_world s)).
Proof.
  revert s. induction evs as [|ev evs IH]; intros s Hbuf.
  - simpl. repeat split. exists []. rewrite app_nil_r.
    repeat split. constructor.
  - destruct (loop_step_frame s ev Hbuf) as (T1 & M1 & n1 & E1 & F1 & A1 & S1).
    destruct (IH (loop_step int_of_str s ev)) as (T2 & M2 & n2 & E2 & F2 & A2 & S2).
    { now rewrite (holds_back_transport _ _ T1). }
    simpl in *. unfold run_events in *. simpl.
    repeat split; try congruence.
    exists (n1 ++ n2). repeat split.
    + rewrite E2, E1. now rewrite app_assoc.
    + now apply Forall_app.
    + rewrite A2, A1. now rewrite last_registered_app.
    + intros Hq. apply Forall_cons in Hq as [Hq1 Hq2].
      rewrite (S2 Hq2). now apply S1.
Qed.

(** An event that is not a registration leaves the endpoint as it is,
    whatever the transport holds back. *)
Lemma loop_step_keeps_endpoint s ev :
  registers ev = false ->
  _client_addr (self (sys_world (loop_step int_of_str s ev)))
  = _client_addr (self (sys_world s)).
Proof.
  intros Hreg. destruct ev as [remote | conn msg | conn | os]; simpl in *;
    try reflexivity.
  - destruct (sys_handlers s !! conn) as [[remote|]|]; try reflexivity.
    destruct (handle_message_not_register remote msg (sys_world s) Hreg)
      as (r & new & He & _).
    rewrite He. now destruct r as [[]|e].
  - destruct (_transport (self (sys_world s))) as [t|]; [|reflexivity].
    destruct (closed t); [reflexivity|].
    now destruct (sendto_ready (sockname t) (buffer t) os).
Qed.

Lemma run_events_keep_endpoint evs s :
  Forall (fun ev => registers ev = false) evs ->
  _client_addr (self (sys_world (run_events int_of_str evs s)))
  = _client_addr (self (sys_world s)).
Proof.
  intros Hq. revert s. induction Hq as [|ev evs Hev Hq IH]; intros s;
    [reflexivity|].
  unfold run_events in *. simpl. rewrite IH.
  now apply loop_step_keeps_endpoint.
Qed.

Lemma run_events_app evs1 evs2 s :
  run_events int_of_str (evs1 ++ evs2) s
  = run_events int_of_str evs2 (run_events int_of_str evs1 s).
Proof. apply fold_left_app. Qed.

Lemma send_loop_cons tk rest s :
  send_loop int_of_str (tk :: rest) s
  = match send_frame (screen tk) (socket tk) (sys_world s) with
    | (Ok _, w) =>
        send_loop int_of_str rest
          (run_events int_of_str (asleep tk) (mkSystem w (sys_handlers s)))
    | (Raise e, w) => (Raise e, mkSystem w (sys_handlers s))
    end.
Proof.
  simpl. unfold mbind at 1, M_bind, in_world.
  destruct (send_frame (screen tk) (socket tk) (sys_world s)) as [[[]|e] w];
    reflexivity.
Qed.

Lemma send_loop_idle_aux ticks s :
  _client_addr (self (sys_world s)) = None ->
  Forall (fun tk => Forall (fun ev => registers ev = false) (asleep tk)) ticks ->
  send_loop int_of_str ticks s
  = (Ok tt, run_events int_of_str (concat (map asleep ticks)) s).
Proof.
  intros Ha Hq. revert s Ha.
  induction Hq as [|tk ticks Htk Hq IH]; intros s Ha; [reflexivity|].
  rewrite send_loop_cons, send_frame_idle by exact Ha.
  simpl. rewrite run_events_app.
  replace (mkSystem (sys_world s) (sys_handlers s)) with s by now destruct s.
  apply IH. now rewrite run_events_keep_endpoint.
Qed.

(** X12. With no viewer registered the send loop is idle for any number
    of ticks, whatever control traffic short of a registration arrives
    in between: no tick captures, sends or fails, and all that happens
    is what the event loop does during the sleeps. When nothing happens
    during them, the system stays exactly as it was. *)
Theorem send_loop_idle (ticks : list tick) (s : system) :
  _client_addr (self (sys_world s)) = None ->
  Forall (fun tk => Forall (fun ev => registers ev = false) (asleep tk)) ticks ->
  send_loop int_of_str ticks s
  = (Ok tt, run_events int_of_str (concat (map asleep ticks)) s).
Proof. apply send_loop_idle_aux. Qed.

Lemma follows_app cur tr1 tr2 :
  follows cur (tr1 ++ tr2)
  <-> follows cur tr1 /\ follows (last_registered cur tr1) tr2.
Proof.
  revert cur. induction tr1 as [|e tr1 IH]; intros cur; simpl.
  - tauto.
  - destruct e; simpl; rewrite ?IH; tauto.
Qed.

Lemma follows_quiet cur tr :
  Forall (fun e => is_io e = false) tr -> follows cur tr.
Proof.
  intros H. revert cur. induction H as [|e tr He H IH]; intros cur;
    [exact I|].
  destruct e; simpl in *; try discriminate; auto.
Qed.

Lemma follows_at cur pre data a post :
  follows cur (pre ++ Sendto data a :: post) ->
  last_registered cur pre = Some a.
Proof.
  intros H. apply follows_app in H as [_ H]. simpl in H. tauto.
Qed.

Lemma sendto_never_blocks addr so :
  so <> Socket.WouldBlock -> Socket.sendto addr so <> Raise BlockingIOError.
Proof.
  intros Hso. unfold Socket.sendto.
  destruct (fst addr); try discriminate.
  destruct so; try congruence; try discriminate;
    destruct (Socket.fits_c_int (snd addr)); simpl; try discriminate;
    destruct (Socket.is_port (snd addr)); simpl; discriminate.
Qed.

(** One tick, nothing being held back and the socket not blocking. *)
Lemma send_frame_follows o so w r w' :
  holds_back (self w) = [] ->
  so <> Socket.WouldBlock ->
  send_frame o so w = (r, w') ->
  holds_back (self w') = []
  /\ _client_addr (self w') = _client_addr (self w)
  /\ exists new,
       trace w' = trace w ++ new
       /\ follows (_client_addr (self w)) new
       /\ last_registered (_client_addr (self w)) new = _client_addr (self w).
Proof.
  intros Hbuf Hso.
  pose proof (sendto_never_blocks) as Hnb.
  unfold send_frame, capture_frame, DatagramTransport_sendto. run.
  unfold holds_back in *.
  destruct (_client_addr (self w)) as [addr|] eqn:Ha;
    [destruct (_transport (self w)) as [t|] eqn:Ht|].
  - destruct o as [e | [|] encoded]; simpl.
    + intros [= <- <-]. simpl. rewrite Ht, Ha. repeat split; trivial.
      exists [Grab (monitor (self w))]. repeat split.
    + destruct (frame_datagram encoded) as [data|e] eqn:Hd; simpl.
      * rewrite Hbuf. destruct (closed t) eqn:Hc.
        { intros [= <- <-]. simpl. rewrite Ht, Ha. repeat split; trivial.
          exists [Grab (monitor (self w))]. repeat split. }
        specialize (Hnb addr so Hso).
        destruct (Socket.sendto addr so) as [[]|[]]; try congruence;
          run; intros [= <- <-]; simpl; rewrite ?Ht, ?Ha;
          repeat split; trivial;
          try (exists [Grab (monitor (self w))]; now repeat split).
        exists [Grab (monitor (self w)); Sendto data addr].
        repeat split. now rewrite <- app_assoc.
      * intros [= <- <-]. simpl. rewrite Ht, Ha. repeat split; trivial.
        exists [Grab (monitor (self w))]. repeat split.
    + intros [= <- <-]. simpl. rewrite Ht, Ha. repeat split; trivial.
      exists [Grab (monitor (self w))]. repeat split.
  - intros [= <- <-]. rewrite Ha. simpl. repeat split; trivial.
    + now rewrite Ht.
    + exists []. rewrite app_nil_r. now repeat split.
  - intros [= <- <-]. rewrite Ha. repeat split; trivial.
    exists []. rewrite app_nil_r. now repeat split.
Qed.

Lemma send_loop_follows_aux ticks s r s' :
  holds_back (self (sys_world s)) = [] ->
  Forall (fun tk => socket tk <> Socket.WouldBlock) ticks ->
  send_loop int_of_str ticks s = (r, s') ->
  exists new,
    trace (sys_world s') = trace (sys_world s) ++ new
    /\ follows (_client_addr (self (sys_world s))) new
    /\ _client_addr (self (sys_world s'))
       = last_registered (_client_addr (self (sys_world s))) new.
Proof.
  intros Hbuf Hso. revert s Hbuf.
  induction Hso as [|tk ticks Htk Hso IH]; intros s Hbuf.
  - intros [= <- <-]. exists []. rewrite app_nil_r. now repeat split.
  - rewrite send_loop_cons.
    destruct (send_frame (screen tk) (socket tk) (sys_world s))
      as [[[]|e] w1] eqn:Hs;
      apply (send_frame_follows _ _ _ _ _ Hbuf Htk) in Hs
        as (B1 & A1 & n1 & E1 & F1 & L1).
    + set (s1 := mkSystem w1 (sys_handlers s)).
      destruct (run_events_frame (asleep tk) s1 B1)
        as (T2 & _ & n2 & E2 & F2 & A2 & _).
      intros Hrest. apply IH in Hrest as (n3 & E3 & F3 & A3).
      2:{ now rewrite (holds_back_transport _ _ T2). }
      simpl in *.
      exists (n1 ++ n2 ++ n3). repeat split.
      * rewrite E3, E2, E1. now rewrite <- !app_assoc.
      * apply follows_app. split; [exact F1|].
        apply follows_app. rewrite L1, <- A1. split.
        -- now apply follows_quiet.
        -- now rewrite <- A2.
      * rewrite A3, A2, A1. rewrite !last_registered_app. now rewrite L1.
    + intros [= <- <-]. simpl. exists n1. repeat split; trivial.
      now rewrite L1.
Qed.

(** X13. Datagrams follow the registration. Over any run of the send
    loop, with the control handlers running during the sleeps, in which
    the socket never makes the transport hold a datagram back: the
    trace only grows, the endpoint at the end is the one of the last
    registration logged, and every datagram handed to the socket is
    addressed to the endpoint in force at that moment, the one of the
    last registration logged before it (or the one in force at the
    start when there is none). *)
Theorem datagrams_follow_registration
  (ticks : list tick) (s s' : system) (r : result unit) :
  holds_back (self (sys_world s)) = [] ->
  Forall (fun tk => socket tk <> Socket.WouldBlock) ticks ->
  send_loop int_of_str ticks s = (r, s') ->
  exists new,
    trace (sys_world s') = trace (sys_world s) ++ new
    /\ _client_addr (self (sys_world s'))
       = last_registered (_client_addr (self (sys_world s))) new
    /\ forall pre data a post,
         new = pre ++ Sendto data a :: post ->
         last_registered (_client_addr (self (sys_world s))) pre = Some a.
Proof.
  intros Hbuf Hso Hrun.
  destruct (send_loop_follows_aux ticks s r s' Hbuf Hso Hrun)
    as (new & E & F & A).
  exists new. repeat split; trivial.
  intros pre data a post ->. now apply (follows_at _ pre data a post).
Qed.

Lemma sends_app tr1 tr2 : sends (tr1 ++ tr2) = sends tr1 ++ sends tr2.
Proof. unfold sends. apply omap_app. Qed.

Lemma sends_quiet tr : Forall (fun e => is_io e = false) tr -> sends tr = [].
Proof.
  induction 1 as [|e tr He H IH]; [reflexivity|].
  destruct e; simpl in *; try discriminate; exact IH.
Qed.

(** The loop while every tick captures a frame that the socket takes
    for [addr] and nothing re-registers. *)
Lemma send_loop_streams_aux addr t ticks frames s :
  _client_addr (self (sys_world s)) = Some addr ->
  _transport (self (sys_world s)) = Some t ->
  closed t = false ->
  buffer t = [] ->
  Forall2 (fun tk f =>
             screen tk = Encoded true f
             /\ Z.of_nat (length f) <= Struct.uint32_max
             /\ Socket.sendto addr (socket tk) = Ok tt
             /\ Forall (fun ev => registers ev = false) (asleep tk))
          ticks frames ->
  exists ds s',
    Forall2 (fun f d => frame_datagram f = Ok d) frames ds
    /\ send_loop int_of_str ticks s = (Ok tt, s')
    /\ self (sys_world s') = self (sys_world s)
    /\ sends (trace (sys_world s'))
       = sends (trace (sys_world s)) ++ map (fun d => (d, addr)) ds.
Proof.
  intros Ha Ht Hopen Hbuf Hall. revert s Ha Ht.
  induction Hall as [|tk f ticks frames (Hscr & Hfit & Hsock & Hq) Hall IH];
    intros s Ha Ht.
  - exists [], s. repeat split; [constructor|]. now rewrite app_nil_r.
  - destruct (send_frame_sends addr t f (socket tk) (sys_world s)
                Ha Ht Hopen Hbuf Hsock Hfit) as (d & Hd & Hs).
    rewrite send_loop_cons, Hscr, Hs.
    set (s1 := mkSystem
                 (mkWorld (self (sys_world s))
                    (trace (sys_world s)
                     ++ [Grab (monitor (self (sys_world s))); Sendto d addr]))
                 (sys_handlers s)).
    destruct (run_events_frame (asleep tk) s1) as (_ & _ & n & E & F & _ & S).
    { unfold holds_back. simpl. now rewrite Ht. }
    specialize (S Hq). simpl in S, E.
    destruct (IH (run_events int_of_str (asleep tk) s1))
      as (ds & s' & Hds & Hrun & Hself & Hsends).
    { now rewrite S. }
    { now rewrite S. }
    exists (d :: ds), s'. repeat split.
    + now constructor.
    + exact Hrun.
    + now rewrite Hself, S.
    + rewrite Hsends, E. rewrite !sends_app, (sends_quiet n F).
      simpl. rewrite app_nil_r. now rewrite <- app_assoc.
Qed.

(** X14. While every tick captures a frame and the socket takes the
    datagram for the registered endpoint (the transport being open with
    nothing held back), and whatever control traffic short of a new
    registration arrives during the sleeps, the send loop hands the
    socket exactly one datagram per tick, in capture order, each the
    framing of the frame captured at that tick, all for the registered
    endpoint; it does not fail and leaves the server object unchanged. *)
Theorem send_loop_streams_in_order
  (addr : address) (t : DatagramTransport) (ticks : list tick)
  (frames : list (list byte)) (s : system) :
  _client_addr (self (sys_world s)) = Some addr ->
  _transport (self (sys_world s)) = Some t ->
  closed t = false ->
  buffer t = [] ->
  Forall2 (fun tk f =>
             screen tk = Encoded true f
             /\ Z.of_nat (length f) <= Struct.uint32_max
             /\ Socket.sendto addr (socket tk) = Ok tt
             /\ Forall (fun ev => registers ev = false) (asleep tk))
          ticks frames ->
  exists ds s',
    Forall2 (fun f d => frame_datagram f = Ok d) frames ds
    /\ send_loop int_of_str ticks s = (Ok tt, s')
    /\ self (sys_world s') = self (sys_world s)
    /\ sends (trace (sys_world s'))
       = sends (trace (sys_world s)) ++ map (fun d => (d, addr)) ds.
Proof. apply send_loop_streams_aux. Qed.

(** X15. [start] with no viewer. When [websockets.serve] raises, the
    exception leaves [start] with nothing changed: no listener, no
    datagram endpoint. When the datagram endpoint cannot be bound, the
    exception leaves [start] with the control listener open and with
    whatever the handlers did in the meantime. When both succeed and no
    registration arrives, before the bind or during a sleep, [start]
    records the transport, logs that it is ready and idles through
    every tick: beyond opening the listener it touches neither the
    screen nor the network. *)
Theorem start_without_viewer
  (e : exn) (name : string * Z) (binding : list loop_event)
  (ticks : list tick) (s : system) :
  _client_addr (self (sys_world s)) = None ->
  _transport (self (sys_world s)) = None ->
  Forall (fun ev => registers ev = false) binding ->
  Forall (fun tk => Forall (fun ev => registers ev = false) (asleep tk)) ticks ->
  let s1 := run_events int_of_str binding
              (mkSystem (mkWorld (self (sys_world s))
                           (trace (sys_world s) ++ [Listening]))
                        (sys_handlers s)) in
  start int_of_str (Raise e) binding (Ok name) ticks s = (Raise e, s)
  /\ start int_of_str (Ok tt) binding (Raise e) ticks s = (Raise e, s1)
  /\ exists s' new,
       start int_of_str (Ok tt) binding (Ok name) ticks s = (Ok tt, s')
       /\ self (sys_world s')
          = with_transport (self (sys_world s))
              (mkDatagramTransport name false [])
       /\ trace (sys_world s') = trace (sys_world s) ++ Listening :: new
       /\ Forall (fun e => is_io e = false) new.
Proof.
  intros Ha Ht Hb Hq s1.
  split; [reflexivity|]. split; [reflexivity|].
  set (s0 := mkSystem (mkWorld (self (sys_world s))
                         (trace (sys_world s) ++ [Listening]))
                      (sys_handlers s)) in s1.
  destruct (run_events_frame binding s0) as (T1 & _ & n1 & E1 & F1 & _ & S1).
  { unfold holds_back. simpl. now rewrite Ht. }
  specialize (S1 Hb). fold s1 in T1, E1, S1. simpl in T1, E1, S1.
  set (s2 := mkSystem
               (mkWorld (with_transport (self (sys_world s1))
                           (mkDatagramTransport name false []))
                        (trace (sys_world s1) ++ [LogReady]))
               (sys_handlers s1)).
  destruct (run_events_frame (concat (map asleep ticks)) s2)
    as (_ & _ & n2 & E2 & F2 & _ & S2); [reflexivity|].
  assert (Hq2 : Forall (fun ev => registers ev = false)
                       (concat (map asleep ticks))).
  { clear -Hq. induction Hq as [|tk ticks Htk Hq IH]; [constructor|].
    simpl. now apply Forall_app. }
  specialize (S2 Hq2). simpl in E2, S2.
  exists (run_events int_of_str (concat (map asleep ticks)) s2),
         (n1 ++ LogReady :: n2).
  repeat split.
  - change (start int_of_str (Ok tt) binding (Ok name) ticks s)
      with (send_loop int_of_str ticks s2).
    apply send_loop_idle_aux; [|exact Hq].
    simpl. now rewrite S1.
  - now rewrite S2, S1.
  - rewrite E2, E1. rewrite <- !app_assoc. reflexivity.
  - apply Forall_app. split; [exact F1|]. constructor; [reflexivity|exact F2].
Qed.

(** X16. The last registration wins: after any messages that were
    handled without an exception, a register message for [(h, p)] leaves
    [(h, p)] as the registered endpoint. *)
Theorem last_registration_wins
  (remote_address : string * Z) (msgs : list message) (m : message)
  (h : string) (p : Z) (w w1 : world) :
  handle_messages int_of_str remote_address msgs w = (Ok tt, w1) ->
  register_for remote_address h p m ->
  handle_messages int_of_str remote_address (msgs ++ [m]) w
  = (Ok tt, mkWorld (with_client_addr (self w1) (JStr h, p))
              (trace w1 ++ [LogRegistered (JStr h, p)])).
Proof.
  intros Hpre Hreg. rewrite handle_messages_app, Hpre. simpl.
  unfold mbind, M_bind.
  now rewrite (handle_message_register int_of_str remote_address h p m w1 Hreg).
Qed.

(** X17. Any run of command messages is relayed one by one, in order,
    each exactly once with the payload it carried, and leaves the server
    object, so the registered endpoint, unchanged. *)
Theorem commands_relayed_in_order
  (remote_address : string * Z) (pls : list json) (msgs : list message)
  (w : world) :
  Forall2 command_for pls msgs ->
  handle_messages int_of_str remote_address msgs w
  = (Ok tt, mkWorld (self w)
              (trace w ++ map (fun pl => LogControl
                                 (ControlMessage.mk (JStr "command") pl)) pls)).
Proof.
  intros Hall. revert w.
  induction Hall as [|pl m pls msgs Hc Hall IH]; intros w.
  - simpl. unfold mret, M_ret. rewrite app_nil_r. now destruct w.
  - simpl. unfold mbind at 1, M_bind.
    destruct Hc as (d & -> & Hty & Hpl).
    erewrite handle_message_other;
      [| rewrite (from_json_obj d _ Hty), Hpl; reflexivity | reflexivity].
    rewrite IH. simpl. now rewrite <- app_assoc.
Qed.

Lemma deliver_ended conn msgs s :
  sys_handlers s !! conn = Some None ->
  run_events int_of_str (map (Deliver conn) msgs) s = s.
Proof.
  intros Hdead. induction msgs as [|m msgs IH]; [reflexivity|].
  unfold run_events in *. simpl. now rewrite Hdead.
Qed.

(** X18. A viewer stays registered when its handler fails. On a
    connection whose handler has registered [(h, p)], a message that
    makes the handler raise (whether it does never depends on the state
    of the server) ends the handler and leaves [(h, p)] registered; no
    message that arrives later on that connection is handled, not even
    a new registration, and the handlers of the other connections are
    untouched. *)
Theorem failed_handler_keeps_registration
  (conn : nat) (remote_address : string * Z) (h : string) (p : Z)
  (reg bad : message) (later : list message) (e : exn) (w0 w0' : world)
  (s : system) :
  sys_handlers s !! conn = Some (Some remote_address) ->
  register_for remote_address h p reg ->
  handle_message int_of_str remote_address bad w0 = (Raise e, w0') ->
  run_events int_of_str
    (Deliver conn reg :: Deliver conn bad :: map (Deliver conn) later) s
  = mkSystem
      (mkWorld (with_client_addr (self (sys_world s)) (JStr h, p))
               (trace (sys_world s) ++ [LogRegistered (JStr h, p)]))
      (<[conn := None]> (sys_handlers s)).
Proof.
  intros Hconn Hreg Hbad.
  change (Deliver conn reg :: Deliver conn bad :: map (Deliver conn) later)
    with ([Deliver conn reg; Deliver conn bad] ++ map (Deliver conn) later).
  rewrite run_events_app.
  assert (Hfirst :
    run_events int_of_str [Deliver conn reg; Deliver conn bad] s
    = mkSystem
        (mkWorld (with_client_addr (self (sys_world s)) (JStr h, p))
                 (trace (sys_world s) ++ [LogRegistered (JStr h, p)]))
        (<[conn := None]> (sys_handlers s))).
  { unfold run_events. simpl. rewrite Hconn.
    rewrite (handle_message_register int_of_str remote_address h p reg _ Hreg).
    simpl. rewrite Hconn.
    now rewrite (handle_message_raise_indep remote_address bad e w0 w0' _ Hbad). }
  rewrite Hfirst. apply deliver_ended. simpl.
  apply list_lookup_insert_eq. now apply lookup_lt_Some in Hconn.
Qed.

(** Once an endpoint is registered, one stays registered. *)
Lemma run_events_endpoint_stays evs s addr :
  _client_addr (self (sys_world s)) = Some addr ->
  exists addr',
    _client_addr (self (sys_world (run_events int_of_str evs s))) = Some addr'.
Proof.
  revert s addr. induction evs as [|ev evs IH]; intros s addr Ha; [eauto|].
  unfold run_events in *. simpl.
  assert (H1 : exists a1,
            _client_addr (self (sys_world (loop_step int_of_str s ev)))
            = Some a1).
  { destruct ev as [remote | conn msg | conn | os]; simpl; eauto.
    - destruct (sys_handlers s !! conn) as [[remote|]|]; eauto.
      destruct (handle_message_cases remote msg (sys_world s))
        as [[e He] | [[a He] | [c He]]]; rewrite He; simpl; eauto.
    - destruct (_transport (self (sys_world s))) as [t|]; eauto.
      destruct (closed t); eauto.
      destruct (sendto_ready (sockname t) (buffer t) os). simpl. eauto. }
  destruct H1 as (a1 & H1). now apply (IH _ a1).
Qed.

(** A closed transport stays closed, whatever the event loop does. *)
Lemma run_events_closed_stays evs s t :
  _transport (self (sys_world s)) = Some t ->
  closed t = true ->
  _transport (self (sys_world (run_events int_of_str evs s))) = Some t
  /\ exists new, trace (sys_world (run_events int_of_str evs s))
                 = trace (sys_world s) ++ new
                 /\ sends new = [].
Proof.
  intros Ht Hc. revert s Ht.
  induction evs as [|ev evs IH]; intros s Ht.
  - split; [exact Ht|]. exists []. now rewrite app_nil_r.
  - unfold run_events in *. simpl.
    assert (H1 : _transport (self (sys_world (loop_step int_of_str s ev)))
                 = Some t
                 /\ exists n1, trace (sys_world (loop_step int_of_str s ev))
                               = trace (sys_world s) ++ n1
                               /\ sends n1 = []).
    { destruct ev as [remote | conn msg | conn | os]; simpl.
      - split; [exact Ht|]. now exists [LogConnected remote].
      - destruct (sys_handlers s !! conn) as [[remote|]|];
          try (split; [exact Ht|]; exists []; now rewrite app_nil_r).
        destruct (handle_message_cases remote msg (sys_world s))
          as [[e He] | [[a He] | [c He]]]; rewrite He; simpl;
          (split; [exact Ht|]).
        + exists []. now rewrite app_nil_r.
        + now exists [LogRegistered a].
        + now exists [LogControl c].
      - split; [exact Ht|]. exists []. now rewrite app_nil_r.
      - rewrite Ht, Hc. split; [exact Ht|]. exists []. now rewrite app_nil_r. }
    destruct H1 as (T1 & n1 & E1 & S1).
    destruct (IH _ T1) as (T2 & n2 & E2 & S2).
    split; [exact T2|]. exists (n1 ++ n2). split.
    + rewrite E2, E1. now rewrite app_assoc.
    + now rewrite sends_app, S1, S2.
Qed.

(** X26. An endpoint that the socket refuses ends the server. When the
    socket raises anything but an [OSError] on the datagram of a tick
    (the transport being open with nothing held back), that tick does
    not fail, but nothing is sent and asyncio closes the transport; the
    next tick that captures a frame raises [AttributeError], which
    leaves [start]: no datagram is ever sent, whatever the handlers do
    in between, a registration of another endpoint included. *)
Theorem refused_endpoint_ends_loop
  (addr : address) (t : DatagramTransport) (f1 f2 : list byte)
  (so1 so2 : Socket.outcome) (evs1 evs2 : list loop_event) (e : exn)
  (rest : list tick) (s : system) :
  _client_addr (self (sys_world s)) = Some addr ->
  _transport (self (sys_world s)) = Some t ->
  closed t = false ->
  buffer t = [] ->
  Socket.sendto addr so1 = Raise e ->
  fatal e = true ->
  Z.of_nat (length f1) <= Struct.uint32_max ->
  Z.of_nat (length f2) <= Struct.uint32_max ->
  exists s',
    send_loop int_of_str
      (mkTick (Encoded true f1) so1 evs1
       :: mkTick (Encoded true f2) so2 evs2 :: rest) s
    = (Raise AttributeError, s')
    /\ sends (trace (sys_world s')) = sends (trace (sys_world s))
    /\ _transport (self (sys_world s'))
       = Some (mkDatagramTransport (sockname t) true []).
Proof.
  intros Ha Ht Hopen Hbuf Hsock Hfatal Hf1 Hf2.
  rewrite send_loop_cons. simpl screen. simpl socket. simpl asleep.
  rewrite (send_frame_refused addr t f1 so1 e _ Ha Ht Hopen Hbuf Hsock Hfatal Hf1).
  set (t' := mkDatagramTransport (sockname t) true []).
  set (s1 := mkSystem
               (mkWorld (with_transport (self (sys_world s)) t')
                        (trace (sys_world s)
                         ++ [Grab (monitor (self (sys_world s)))]))
               (sys_handlers s)).
  destruct (run_events_closed_stays evs1 s1 t') as (T1 & n1 & E1 & S1);
    [reflexivity | reflexivity |].
  destruct (run_events_endpoint_stays evs1 s1 addr) as (addr' & A1);
    [exact Ha|].
  rewrite send_loop_cons. simpl screen. simpl socket.
  rewrite (send_frame_closed addr' t' f2 so2 _ A1 T1 eq_refl eq_refl Hf2).
  eexists. split; [reflexivity|]. simpl. split; [|exact T1].
  rewrite E1. simpl. rewrite !sends_app, S1. simpl.
  now rewrite !app_nil_r.
Qed.

End ServerMore.

(** ** More on the client *)

Section ClientMore.
Variable image : Type.
Variable imdecode : list byte -> imdecode_result image.

Lemma receive_frames_app ds1 ds2 tr :
  receive_frames image imdecode (ds1 ++ ds2) tr
  = match receive_frames image imdecode ds1 tr with
    | (Ok _, tr1) => receive_frames image imdecode ds2 tr1
    | (Raise e, tr1) => (Raise e, tr1)
    end.
Proof.
  revert tr. induction ds1 as [|d ds1 IH]; intros tr; [reflexivity|].
  simpl. run.
  destruct (FramePacket.parse d) as [pk|e]; simpl; [|reflexivity].
  unfold display_frame.
  destruct (imdecode (FramePacket.payload pk)) as [e| |img]; run;
    try apply IH; reflexivity.
Qed.

(** One datagram with its header whose payload the decoder does not
    raise on. *)
Lemma receive_frames_step d rest tr :
  (4 <= length d)%nat ->
  (forall pk e, FramePacket.parse d = Ok pk ->
                imdecode (FramePacket.payload pk) <> DecodeRaises image e) ->
  receive_frames image imdecode (d :: rest) tr
  = receive_frames image imdecode rest
      (tr ++ flat_map (fun img => [Imshow image img; WaitKey image 1])
              (option_list (shows imdecode d))).
Proof.
  intros Hlen Hdec. destruct (parse_long d Hlen) as [pk Hpk].
  simpl. run. unfold shows. rewrite Hpk. simpl.
  specialize (Hdec pk). unfold display_frame.
  destruct (imdecode (FramePacket.payload pk)) as [e| |img]; run.
  - now destruct (Hdec e).
  - now rewrite app_nil_r.
  - now rewrite <- app_assoc.
Qed.

Lemma receive_frames_all_aux ds tr :
  Forall (fun d => (4 <= length d)%nat
                   /\ forall pk e, FramePacket.parse d = Ok pk ->
                        imdecode (FramePacket.payload pk) <> DecodeRaises image e)
         ds ->
  receive_frames image imdecode ds tr
  = (Ok tt, tr ++ flat_map (fun img => [Imshow image img; WaitKey image 1])
                    (omap (shows imdecode) ds)).
Proof.
  intros Hall. revert tr.
  induction Hall as [|d ds [Hlen Hdec] Hall IH]; intros tr.
  - simpl. unfold mret, M_ret. now rewrite app_nil_r.
  - rewrite (receive_frames_step d ds tr Hlen Hdec), IH.
    rewrite <- app_assoc. do 2 f_equal. simpl.
    destruct (shows imdecode d); reflexivity.
Qed.

(** X19. As long as every datagram has its four header bytes and the
    decoder does not raise, the receive loop never ends: it shows
    exactly the images of the datagrams that decode, in arrival order,
    each followed by [waitKey(1)], and silently drops the others. *)
Theorem receive_frames_shows_decodable
  (ds : list (list byte)) (tr : list (shown image)) :
  Forall (fun d => (4 <= length d)%nat
                   /\ forall pk e, FramePacket.parse d = Ok pk ->
                        imdecode (FramePacket.payload pk) <> DecodeRaises image e)
         ds ->
  receive_frames image imdecode ds tr
  = (Ok tt, tr ++ flat_map (fun img => [Imshow image img; WaitKey image 1])
                    (omap (shows imdecode) ds)).
Proof. apply receive_frames_all_aux. Qed.

(** X20. The first datagram shorter than its header ends the receive
    task with [struct.error]: what was shown before stays shown, and
    nothing that arrives after it is looked at. *)
Theorem receive_frames_stops_at_short
  (pre rest : list (list byte)) (bad : list byte) (tr tr1 : list (shown image)) :
  receive_frames image imdecode pre tr = (Ok tt, tr1) ->
  (length bad < 4)%nat ->
  receive_frames image imdecode (pre ++ bad :: rest) tr
  = (Raise StructError, tr1).
Proof.
  intros Hpre Hshort. rewrite receive_frames_app, Hpre.
  simpl. run. now rewrite parse_short.
Qed.

(** X21. An exception of the decoder is not caught: at the first
    datagram whose payload makes [cv2.imdecode] raise, the receive task
    ends with that exception; what was shown before stays shown, and
    nothing is shown for that datagram or for any after it. *)
Theorem receive_frames_decoder_raises
  (pre rest : list (list byte)) (d : list byte) (pk : FramePacket.t)
  (e : exn) (tr tr1 : list (shown image)) :
  receive_frames image imdecode pre tr = (Ok tt, tr1) ->
  FramePacket.parse d = Ok pk ->
  imdecode (FramePacket.payload pk) = DecodeRaises image e ->
  receive_frames image imdecode (pre ++ d :: rest) tr = (Raise e, tr1).
Proof.
  intros Hpre Hpk Hdec. rewrite receive_frames_app, Hpre.
  simpl. run. rewrite Hpk. simpl.
  unfold display_frame. now rewrite Hdec.
Qed.

(** What the client shows for the datagram of a frame. *)
Lemma shows_frame_datagram f d :
  frame_datagram f = Ok d ->
  shows imdecode d
  = match imdecode f with Decoded _ img => Some img | _ => None end.
Proof.
  intros Hd. unfold shows. now rewrite (parse_frame_datagram f d Hd).
Qed.

(** A datagram that fits the buffer of [recvfrom] arrives whole. *)
Lemma recvfrom_whole bufsize d :
  Z.of_nat (length d) <= bufsize -> recvfrom bufsize d = d.
Proof.
  intros Hlen. unfold recvfrom. apply take_ge. lia.
Qed.

(** X22. End to end on the data plane. When every tick of the send loop
    captures a frame whose datagram fits a UDP payload and the socket
    takes it for the registered endpoint (the transport being open with
    nothing held back, and no new registration arriving during the
    sleeps), and every datagram sent reaches the client's
    [recvfrom(2 ** 16)] in order, then the client shows exactly those
    frames that its decoder accepts, in capture order, and neither loop
    fails. *)
Theorem frames_delivered_in_order
  (int_of_str : string -> option Z)
  (addr : address) (t : DatagramTransport) (ticks : list tick)
  (frames : list (list byte)) (s : system) (tr : list (shown image)) :
  _client_addr (self (sys_world s)) = Some addr ->
  _transport (self (sys_world s)) = Some t ->
  closed t = false ->
  buffer t = [] ->
  Forall2 (fun tk f =>
             screen tk = Encoded true f
             /\ 4 + Z.of_nat (length f) <= udp_max_payload
             /\ Socket.sendto addr (socket tk) = Ok tt
             /\ Forall (fun ev => registers ev = false) (asleep tk)
             /\ forall e, imdecode f <> DecodeRaises image e)
          ticks frames ->
  exists ds s',
    send_loop int_of_str ticks s = (Ok tt, s')
    /\ sends (trace (sys_world s'))
       = sends (trace (sys_world s)) ++ map (fun d => (d, addr)) ds
    /\ receive_frames image imdecode (map (recvfrom 65536) ds) tr
       = (Ok tt,
          tr ++ flat_map (fun img => [Imshow image img; WaitKey image 1])
                  (omap (fun f => match imdecode f with
                                  | Decoded _ img => Some img
                                  | _ => None
                                  end) frames)).
Proof.
  intros Ha Ht Hopen Hbuf Hall.
  destruct (send_loop_streams_aux int_of_str addr t ticks frames s
              Ha Ht Hopen Hbuf) as (ds & s' & Hds & Hrun & _ & Hsends).
  { eapply Forall2_impl; [exact Hall|].
    intros tk f (Hscr & Hfit & Hsock & Hq & _). repeat split; trivial.
    unfold udp_max_payload in Hfit. unfold Struct.uint32_max. lia. }
  exists ds, s'. split; [exact Hrun|]. split; [exact Hsends|].
  assert (Hfr : Forall2 (fun f d =>
                  frame_datagram f = Ok d
                  /\ 4 + Z.of_nat (length f) <= udp_max_payload
                  /\ forall e, imdecode f <> DecodeRaises image e) frames ds).
  { clear -Hall Hds. revert ds Hds.
    induction Hall as [|tk f ticks frames (_ & Hfit & _ & _ & Hdec) Hall IH];
      intros ds Hds; inversion Hds; subst; constructor; auto. }
  clear Hall Hds Hrun Hsends.
  assert (Hwhole : map (recvfrom 65536) ds = ds).
  { induction Hfr as [|f d frames ds (Hd & Hfit & _) Hfr IH]; [reflexivity|].
    simpl. rewrite IH. f_equal. apply recvfrom_whole.
    apply frame_datagram_shape_aux in Hd as (Hlen & _).
    unfold udp_max_payload in Hfit. lia. }
  rewrite Hwhole, receive_frames_all_aux; clear Hwhole.
  - do 3 f_equal.
    induction Hfr as [|f d frames ds (Hd & _ & _) Hfr IH]; [reflexivity|].
    cbn -[shows]. rewrite (shows_frame_datagram f d Hd), IH. reflexivity.
  - induction Hfr as [|f d frames ds (Hd & _ & Hdec) Hfr IH]; [constructor|].
    constructor; [|exact IH]. split.
    + apply frame_datagram_length in Hd. lia.
    + intros pk e Hpk. rewrite (parse_frame_datagram f d Hd) in Hpk.
      injection Hpk as <-. simpl. apply Hdec.
Qed.

End ClientMore.

(** ** The control session, end to end *)

Section ControlSession.
Variable int_of_str : string -> option Z.

Lemma forward_controls_trace commands tr :
  forward_controls commands tr
  = (Ok tt, tr ++ map (fun c => WsSend (command_payload c)) commands).
Proof.
  revert tr. induction commands as [|c commands IH]; intros tr.
  - simpl. unfold mret, M_ret. now rewrite app_nil_r.
  - simpl. run. rewrite IH. now rewrite <- app_assoc.
Qed.

Lemma sent_commands commands :
  sent (map (fun c => WsSend (command_payload c)) commands)
  = map command_payload commands.
Proof.
  induction commands as [|c commands IH]; [reflexivity|].
  simpl. unfold sent in *. simpl. now rewrite IH.
Qed.

Lemma register_udp_sent_aux c commands :
  exists tr,
    register_udp c (Ok tt) commands [] = (Ok tt, tr)
    /\ sent tr = register_payload c :: map command_payload commands.
Proof.
  unfold register_udp. run. rewrite forward_controls_trace.
  eexists. split; [reflexivity|].
  unfold sent. simpl. f_equal. apply sent_commands.
Qed.

Lemma register_payload_for c remote_address :
  register_for remote_address (fst remote_address) (listen_port c)
    (delivered (register_payload c)).
Proof.
  eexists _, _. split; [reflexivity|].
  split; [apply lookup_insert_eq|].
  split; [rewrite lookup_insert_ne by discriminate; apply lookup_singleton_eq|].
  split; [rewrite lookup_insert_ne by discriminate; apply lookup_singleton_eq|].
  right. split; [right; apply lookup_insert_eq | reflexivity].
Qed.

Lemma command_payload_for command :
  command_for (JObj {[ "raw" := JStr command ]})
    (delivered (command_payload command)).
Proof.
  eexists. split; [reflexivity|].
  split; [apply lookup_insert_eq|].
  rewrite lookup_insert_ne by discriminate. apply lookup_singleton_eq.
Qed.

(** X23. What the client puts on the control channel: when the
    connection opens, exactly one register message first, then one
    command message per line of input, in order; when it does not open,
    nothing at all. *)
Theorem register_udp_sends
  (c : SRVNCClient) (commands : list string) (e : exn) :
  (exists tr,
     register_udp c (Ok tt) commands [] = (Ok tt, tr)
     /\ sent tr = register_payload c :: map command_payload commands)
  /\ (exists tr,
        register_udp c (Raise e) commands [] = (Raise e, tr)
        /\ sent tr = []).
Proof.
  split; [apply register_udp_sent_aux|].
  eexists. split; reflexivity.
Qed.

(** X24. The client's register message, which leaves the host null, makes
    the server register the peer address of the connection together with
    the client's listening port. *)
Theorem client_registration_uses_peer_address
  (c : SRVNCClient) (remote_address : string * Z) (w : world) :
  handle_message int_of_str remote_address (delivered (register_payload c)) w
  = (Ok tt,
     mkWorld (with_client_addr (self w)
                (JStr (fst remote_address), listen_port c))
             (trace w ++ [LogRegistered (JStr (fst remote_address),
                                         listen_port c)])).
Proof.
  apply handle_message_register, register_payload_for.
Qed.

(** X25. A whole control session, end to end: fed everything the client
    sends, the server's handler registers [(peer address, listen port)]
    once, relays every command exactly once and in order with its text
    under ["raw"], never raises, and changes nothing else. *)
Theorem control_session
  (c : SRVNCClient) (commands : list string) (remote_address : string * Z)
  (w : world) :
  handle_control int_of_str remote_address
    (map delivered (register_payload c :: map command_payload commands)) w
  = (Ok tt,
     mkWorld (with_client_addr (self w)
                (JStr (fst remote_address), listen_port c))
             (trace w
              ++ [LogConnected remote_address;
                  LogRegistered (JStr (fst remote_address), listen_port c)]
              ++ map (fun command =>
                        LogControl (ControlMessage.mk (JStr "command")
                                      (JObj {[ "raw" := JStr command ]})))
                     commands)).
Proof.
  assert (Hrun : forall w1,
    handle_messages int_of_str remote_address
      (map delivered (map command_payload commands)) w1
    = (Ok tt, mkWorld (self w1)
                (trace w1 ++ map (fun command =>
                   LogControl (ControlMessage.mk (JStr "command")
                                 (JObj {[ "raw" := JStr command ]})))
                   commands))).
  { induction commands as [|cmd commands IH]; intros w1.
    - simpl. unfold mret, M_ret. rewrite app_nil_r. now destruct w1.
    - simpl. unfold mbind at 1, M_bind.
      destruct (command_payload_for cmd) as (d & Hd & Hty & Hpl).
      erewrite handle_message_other;
        [| rewrite Hd, (from_json_obj d _ Hty), Hpl; reflexivity
         | reflexivity].
      rewrite IH. simpl. now rewrite <- app_assoc. }
  unfold handle_control. unfold mbind at 1, M_bind. unfold emit, modify.
  change (map delivered (register_payload c :: map command_payload commands))
    with ([delivered (register_payload c)]
          ++ map delivered (map command_payload commands)).
  rewrite handle_messages_app. simpl handle_messages at 1.
  unfold mbind at 1, M_bind.
  rewrite (handle_message_register int_of_str remote_address
             (fst remote_address) (listen_port c) _ _
             (register_payload_for c remote_address)).
  unfold mret, M_ret. rewrite Hrun. simpl. now rewrite <- !app_assoc.
Qed.

End ControlSession.

(** ** The server as a whole *)

Section WholeServer.
Variable int_of_str : string -> option Z.



Lemma send_loop_app ticks1 ticks2 s :
  send_loop int_of_str (ticks1 ++ ticks2) s
  = match send_loop int_of_str ticks1 s with
    | (Ok _, s1) => send_loop int_of_str ticks2 s1
    | (Raise e, s1) => (Raise e, s1)
    end.
Proof.
  revert s. induction ticks1 as [|tk ticks1 IH]; intros s; [reflexivity|].
  simpl app. rewrite !(send_loop_cons int_of_str).
  destruct (send_frame (screen tk) (socket tk) (sys_world s)) as [[[]|e] w];
    [apply IH | reflexivity].
Qed.

(** X28. From [main] to the stream. A server started by [main] listens,
    binds and idles; when the client of [client.py] connects and its
    register message is handled during a sleep, the endpoint becomes
    the peer address with the client's listening port, and from the
    next tick on every tick that captures a frame the socket takes for
    that endpoint sends it there: the datagrams sent are exactly the
    framings of the frames captured after the registration, in order,
    and none was sent before. *)
Theorem viewer_registers_then_streams
  (c : SRVNCClient) (remote_address name : string * Z)
  (idle ticks : list tick) (o : grab_outcome) (so : Socket.outcome)
  (frames : list (list byte)) :
  let addr := (JStr (fst remote_address), listen_port c) in
  Forall (fun tk => asleep tk = []) idle ->
  Forall2 (fun tk f =>
             screen tk = Encoded true f
             /\ Z.of_nat (length f) <= Struct.uint32_max
             /\ Socket.sendto addr (socket tk) = Ok tt
             /\ Forall (fun ev => registers ev = false) (asleep tk))
          ticks frames ->
  exists ds s',
    Forall2 (fun f d => frame_datagram f = Ok d) frames ds
    /\ main int_of_str (Ok tt) [] (Ok name)
         (idle
          ++ mkTick o so [Connect remote_address;
                          Deliver 0 (delivered (register_payload c))]
          :: ticks)
       = (Ok tt, s')
    /\ _client_addr (self (sys_world s')) = Some addr
    /\ sends (trace (sys_world s')) = map (fun d => (d, addr)) ds.
Proof.
  intros addr Hidle Hall.
  set (t := mkDatagramTransport name false []).
  set (s0 := mkSystem (mkWorld (with_transport SRVNCServer_init t)
                         [Listening; LogReady]) []).
  set (s1 := mkSystem
               (mkWorld (with_client_addr (with_transport SRVNCServer_init t) addr)
                  [Listening; LogReady; LogConnected remote_address;
                   LogRegistered addr])
               [Some remote_address]).
  destruct (send_loop_streams_aux int_of_str addr t ticks frames s1)
    as (ds & s' & Hds & Hrun & Hself & Hsends); try reflexivity; [exact Hall|].
  exists ds, s'. split; [exact Hds|].
  assert (Hmain :
    main int_of_str (Ok tt) [] (Ok name)
      (idle
       ++ mkTick o so [Connect remote_address;
                       Deliver 0 (delivered (register_payload c))]
       :: ticks)
    = send_loop int_of_str ticks s1).
  { change (main int_of_str (Ok tt) [] (Ok name)
              (idle
               ++ mkTick o so [Connect remote_address;
                               Deliver 0 (delivered (register_payload c))]
               :: ticks))
      with (send_loop int_of_str
              (idle
               ++ mkTick o so [Connect remote_address;
                               Deliver 0 (delivered (register_payload c))]
               :: ticks) s0).
    rewrite send_loop_app.
    rewrite (send_loop_idle_aux int_of_str idle s0); [|reflexivity|].
    2:{ eapply Forall_impl; [exact Hidle|]. intros tk ->. constructor. }
    replace (concat (map asleep idle)) with (@nil loop_event).
    2:{ clear -Hidle. induction Hidle as [|tk idle Htk Hidle IH];
          [reflexivity|]. simpl. now rewrite Htk, <- IH. }
    unfold run_events at 1. simpl fold_left.
    rewrite (send_loop_cons int_of_str).
    rewrite send_frame_idle by reflexivity.
    simpl asleep. unfold run_events at 1. simpl fold_left.
    rewrite (handle_message_register int_of_str remote_address
               (fst remote_address) (listen_port c) _ _
               (register_payload_for c remote_address)).
    reflexivity. }
  rewrite Hmain. split; [exact Hrun|]. split.
  - now rewrite Hself.
  - exact Hsends.
Qed.

End WholeServer.

(** ** Closed instances of the further properties *)

Section ClosedMore.
Import Sample.

Lemma handle_message_exception_safe_witness : fresh = fresh.
Proof.
  apply (handle_message_exception_safe Py.decimal_int_of_str peer
           unparseable fresh fresh JSONDecodeError).
  reflexivity.
Defined.

Lemma handle_control_no_io_witness :
  _transport (self (mkWorld (self streaming) [LogConnected peer]))
  = _transport (self streaming).
Proof.
  apply (handle_control_no_io Py.decimal_int_of_str peer [unparseable]
           streaming (mkWorld (self streaming) [LogConnected peer])
           (Raise JSONDecodeError)).
  reflexivity.
Defined.

Lemma register_resolves_endpoint_witness :
  handle_message Py.decimal_int_of_str peer
    (Ok (JObj {[ "type" := JStr "register";
                 "payload" := JObj {[ "host" := JStr "";
                                      "port" := JStr "10001" ]} ]})) fresh
  = (Ok tt, mkWorld (with_client_addr (self fresh) (JStr "192.0.2.7", 10001))
              [LogRegistered (JStr "192.0.2.7", 10001)]).
Proof.
  etransitivity.
  - apply (register_resolves_endpoint Py.decimal_int_of_str peer
             {[ "type" := JStr "register";
                "payload" := JObj {[ "host" := JStr "";
                                     "port" := JStr "10001" ]} ]}
             {[ "host" := JStr ""; "port" := JStr "10001" ]}
             (JStr "10001") 10001 fresh).
    + apply lookup_insert_eq.
    + rewrite lookup_insert_ne by discriminate. apply lookup_singleton_eq.
    + rewrite lookup_insert_ne by discriminate. apply lookup_singleton_eq.
    + reflexivity.
  - vm_compute. reflexivity.
Defined.

Lemma send_loop_idle_witness :
  send_loop Py.decimal_int_of_str
    [mkTick (Encoded true jpeg) Socket.Sent [Connect peer; Deliver 0 click];
     mkTick (GrabRaises ScreenShotError) Socket.Sent []]
    (mkSystem fresh [])
  = (Ok tt,
     run_events Py.decimal_int_of_str [Connect peer; Deliver 0 click]
       (mkSystem fresh [])).
Proof.
  apply (send_loop_idle Py.decimal_int_of_str
           [mkTick (Encoded true jpeg) Socket.Sent [Connect peer; Deliver 0 click];
            mkTick (GrabRaises ScreenShotError) Socket.Sent []]
           (mkSystem fresh [])).
  - reflexivity.
  - repeat constructor.
Defined.

Lemma datagrams_follow_registration_witness :
  exists new,
    [Grab 0; Sendto jpeg_datagram (JStr "127.0.0.1", 10000);
     LogRegistered (JStr "198.51.100.4", 10001);
     Grab 0; Sendto jpeg_datagram (JStr "198.51.100.4", 10001)]
    = [] ++ new
    /\ Some (JStr "198.51.100.4", 10001)
       = last_registered (Some (JStr "127.0.0.1", 10000)) new
    /\ forall pre data a post,
         new = pre ++ Sendto data a :: post ->
         last_registered (Some (JStr "127.0.0.1", 10000)) pre = Some a.
Proof.
  apply (datagrams_follow_registration Py.decimal_int_of_str
           [mkTick (Encoded true jpeg) Socket.Sent [Deliver 0 register_explicit];
            quiet_tick (Encoded true jpeg)]
           streaming_system
           (mkSystem
              (mkWorld (with_client_addr (self streaming)
                          (JStr "198.51.100.4", 10001))
                 [Grab 0; Sendto jpeg_datagram (JStr "127.0.0.1", 10000);
                  LogRegistered (JStr "198.51.100.4", 10001);
                  Grab 0; Sendto jpeg_datagram (JStr "198.51.100.4", 10001)])
              [Some peer])
           (Ok tt)).
  - reflexivity.
  - repeat constructor; discriminate.
  - vm_compute. reflexivity.
Defined.

Lemma send_loop_streams_in_order_witness :
  exists ds s',
    Forall2 (fun f d => frame_datagram f = Ok d) [jpeg; [xff; xd8]] ds
    /\ send_loop Py.decimal_int_of_str
         [mkTick (Encoded true jpeg) Socket.Sent [Deliver 0 click];
          quiet_tick (Encoded true [xff; xd8])]
         streaming_system
       = (Ok tt, s')
    /\ self (sys_world s') = self streaming
    /\ sends (trace (sys_world s'))
       = [] ++ map (fun d => (d, (JStr "127.0.0.1", 10000))) ds.
Proof.
  apply (send_loop_streams_in_order Py.decimal_int_of_str
           (JStr "127.0.0.1", 10000) bound_transport
           [mkTick (Encoded true jpeg) Socket.Sent [Deliver 0 click];
            quiet_tick (Encoded true [xff; xd8])]
           [jpeg; [xff; xd8]] streaming_system);
    try reflexivity.
  repeat constructor; try (vm_compute; reflexivity);
    vm_compute; discriminate.
Defined.

Lemma start_without_viewer_witness :
  let s1 := run_events Py.decimal_int_of_str [Connect peer]
              (mkSystem (mkWorld (self fresh) ([] ++ [Listening])) []) in
  start Py.decimal_int_of_str (Raise OSError) [Connect peer]
    (Ok ("0.0.0.0", 9999))
    [mkTick (Encoded true jpeg) Socket.Sent [Deliver 0 click]]
    (mkSystem fresh [])
  = (Raise OSError, mkSystem fresh [])
  /\ start Py.decimal_int_of_str (Ok tt) [Connect peer] (Raise OSError)
       [mkTick (Encoded true jpeg) Socket.Sent [Deliver 0 click]]
       (mkSystem fresh [])
     = (Raise OSError, s1)
  /\ exists s' new,
       start Py.decimal_int_of_str (Ok tt) [Connect peer]
         (Ok ("0.0.0.0", 9999))
         [mkTick (Encoded true jpeg) Socket.Sent [Deliver 0 click]]
         (mkSystem fresh [])
       = (Ok tt, s')
       /\ self (sys_world s')
          = with_transport (self fresh)
              (mkDatagramTransport ("0.0.0.0", 9999) false [])
       /\ trace (sys_world s') = [] ++ Listening :: new
       /\ Forall (fun e => is_io e = false) new.
Proof.
  apply (start_without_viewer Py.decimal_int_of_str OSError ("0.0.0.0", 9999)
           [Connect peer]
           [mkTick (Encoded true jpeg) Socket.Sent [Deliver 0 click]]
           (mkSystem fresh []));
    try reflexivity.
  - repeat constructor.
  - repeat constructor.
Defined.

Lemma last_registration_wins_witness :
  handle_messages Py.decimal_int_of_str other_peer
    ([unknown_type] ++ [register_explicit]) fresh
  = (Ok tt,
     mkWorld (with_client_addr (self fresh) (JStr "198.51.100.4", 10001))
       ([LogControl (ControlMessage.mk (JStr "resize") (JObj ∅))]
        ++ [LogRegistered (JStr "198.51.100.4", 10001)])).
Proof.
  apply (last_registration_wins Py.decimal_int_of_str other_peer
           [unknown_type] register_explicit "198.51.100.4" 10001 fresh
           (mkWorld (self fresh)
              [LogControl (ControlMessage.mk (JStr "resize") (JObj ∅))])).
  - vm_compute. reflexivity.
  - exact register_for_explicit.
Defined.

Lemma commands_relayed_in_order_witness :
  handle_messages Py.decimal_int_of_str peer [click; click] streaming
  = (Ok tt,
     mkWorld (self streaming)
       (map (fun pl => LogControl (ControlMessage.mk (JStr "command") pl))
          [click_payload; click_payload])).
Proof.
  assert (Hc : command_for click_payload click).
  { eexists. split; [reflexivity|].
    split; [apply lookup_insert_eq|].
    rewrite lookup_insert_ne by discriminate. apply lookup_singleton_eq. }
  apply (commands_relayed_in_order Py.decimal_int_of_str peer
           [click_payload; click_payload] [click; click] streaming).
  repeat constructor; exact Hc.
Defined.

Lemma failed_handler_keeps_registration_witness :
  run_events Py.decimal_int_of_str
    (Deliver 0 register_explicit :: Deliver 0 register_portless
     :: map (Deliver 0) [register_inferred; click])
    (mkSystem fresh [Some peer])
  = mkSystem
      (mkWorld (with_client_addr (self fresh) (JStr "198.51.100.4", 10001))
               ([] ++ [LogRegistered (JStr "198.51.100.4", 10001)]))
      (<[0%nat := None]> [Some peer]).
Proof.
  apply (failed_handler_keeps_registration Py.decimal_int_of_str
           0 peer "198.51.100.4" 10001 register_explicit register_portless
           [register_inferred; click] (KeyError "port") fresh fresh
           (mkSystem fresh [Some peer])).
  - reflexivity.
  - eexists _, _. split; [reflexivity|].
    repeat split; try (vm_compute; reflexivity).
    left. split; [vm_compute; reflexivity | discriminate].
  - vm_compute. reflexivity.
Defined.

Lemma refused_endpoint_ends_loop_witness :
  exists s',
    send_loop Py.decimal_int_of_str
      (mkTick (Encoded true jpeg) Socket.Sent [Deliver 0 register_inferred]
       :: mkTick (Encoded true jpeg) Socket.Sent []
       :: [quiet_tick (Encoded true jpeg)])
      (mkSystem unroutable [Some peer])
    = (Raise AttributeError, s')
    /\ sends (trace (sys_world s')) = []
    /\ _transport (self (sys_world s'))
       = Some (mkDatagramTransport ("0.0.0.0", 9999) true []).
Proof.
  apply (refused_endpoint_ends_loop Py.decimal_int_of_str
           (JStr "127.0.0.1", 70000) bound_transport jpeg jpeg
           Socket.Sent Socket.Sent [Deliver 0 register_inferred] []
           OverflowError [quiet_tick (Encoded true jpeg)]
           (mkSystem unroutable [Some peer]));
    try reflexivity; vm_compute; discriminate.
Defined.

Lemma receive_frames_shows_decodable_witness :
  receive_frames _ marker_decoder [noise_datagram; jpeg_datagram] []
  = (Ok tt, [Imshow _ jpeg; WaitKey _ 1]).
Proof.
  apply (receive_frames_shows_decodable _ marker_decoder
           [noise_datagram; jpeg_datagram] []).
  repeat constructor; try (simpl; lia);
    intros pk e [= <-]; discriminate.
Defined.

Lemma receive_frames_stops_at_short_witness :
  receive_frames _ marker_decoder
    ([jpeg_datagram] ++ short_datagram :: [jpeg_datagram]) []
  = (Raise StructError, [Imshow _ jpeg; WaitKey _ 1]).
Proof.
  apply (receive_frames_stops_at_short _ marker_decoder
           [jpeg_datagram] [jpeg_datagram] short_datagram []
           [Imshow _ jpeg; WaitKey _ 1]).
  - reflexivity.
  - simpl. lia.
Defined.

Lemma receive_frames_decoder_raises_witness :
  receive_frames _ marker_decoder
    ([jpeg_datagram] ++ [x00; x00; x00; x00] :: [jpeg_datagram]) []
  = (Raise CvError, [Imshow _ jpeg; WaitKey _ 1]).
Proof.
  apply (receive_frames_decoder_raises _ marker_decoder
           [jpeg_datagram] [jpeg_datagram] [x00; x00; x00; x00]
           (FramePacket.mk 0 []) CvError [] [Imshow _ jpeg; WaitKey _ 1]);
    reflexivity.
Defined.

Lemma frames_delivered_in_order_witness :
  exists ds s',
    send_loop Py.decimal_int_of_str
      [mkTick (Encoded true jpeg) Socket.Sent [Deliver 0 click];
       quiet_tick (Encoded true [x13; x37])]
      streaming_system
    = (Ok tt, s')
    /\ sends (trace (sys_world s'))
       = [] ++ map (fun d => (d, (JStr "127.0.0.1", 10000))) ds
    /\ receive_frames _ marker_decoder (map (recvfrom 65536) ds) []
       = (Ok tt, [Imshow _ jpeg; WaitKey _ 1]).
Proof.
  apply (frames_delivered_in_order _ marker_decoder Py.decimal_int_of_str
           (JStr "127.0.0.1", 10000) bound_transport
           [mkTick (Encoded true jpeg) Socket.Sent [Deliver 0 click];
            quiet_tick (Encoded true [x13; x37])]
           [jpeg; [x13; x37]] streaming_system []);
    try reflexivity.
  repeat constructor; try (vm_compute; reflexivity);
    try (vm_compute; discriminate); intros e; discriminate.
Defined.

Lemma viewer_registers_then_streams_witness :
  exists ds s',
    Forall2 (fun f d => frame_datagram f = Ok d) [jpeg] ds
    /\ main Py.decimal_int_of_str (Ok tt) [] (Ok ("0.0.0.0", 9999))
         ([quiet_tick (Encoded true jpeg)]
          ++ mkTick (GrabRaises ScreenShotError) Socket.Sent
               [Connect peer;
                Deliver 0 (delivered (register_payload
                                        (mkSRVNCClient "127.0.0.1" 8765 10000)))]
          :: [quiet_tick (Encoded true jpeg)])
       = (Ok tt, s')
    /\ _client_addr (self (sys_world s')) = Some (JStr "192.0.2.7", 10000)
    /\ sends (trace (sys_world s'))
       = map (fun d => (d, (JStr "192.0.2.7", 10000))) ds.
Proof.
  apply (viewer_registers_then_streams Py.decimal_int_of_str
           (mkSRVNCClient "127.0.0.1" 8765 10000) peer ("0.0.0.0", 9999)
           [quiet_tick (Encoded true jpeg)] [quiet_tick (Encoded true jpeg)]
           (GrabRaises ScreenShotError) Socket.Sent [jpeg]).
  - repeat constructor.
  - repeat constructor. vm_compute. discriminate.
Defined.

End ClosedMore.
